(** * dobi task engine: dependency collection and execution

    A shallow embedding of [tasks/tasks.go], [config/job.go] and
    [config/env.go].  Go packages become modules, Go interfaces become
    records of methods, multiple return values become tuples, and the
    mutable objects that the engine threads through its calls
    ([*collectionState], [*context.ExecuteContext]) are passed explicitly.

    Code of other packages that the engine only calls ([task.ParseName],
    the per-kind [GetTaskConfig] constructors, the resolver, [fmt]'s
    quoting) is collected in type classes; every theorem holds for all
    their implementations. *)

From Stdlib Require Import Ascii.
From stdpp Require Import gmap strings list fin_maps.

Set Default Proof Using "Type*".
Set Warnings "-clear-no-such-hyp".

(** ** Go values *)

(** An [error] is seen through its [Error()] text. *)
Definition error := string.

(** What a call does: it returns, it panics, or (for the recursive
    collector, which is run with a bound on the call depth) the bound was
    too small. *)
Inductive outcome (A : Type) : Type :=
  | Returns (a : A)
  | Panics (msg : string)
  | OutOfFuel.
Arguments Returns {A} a.
Arguments Panics {A} msg.
Arguments OutOfFuel {A}.

#[global] Instance outcome_ret : MRet outcome := λ A a, Returns a.
#[global] Instance outcome_bind : MBind outcome := λ A B k m,
  match m with
  | Returns a => k a
  | Panics msg => Panics msg
  | OutOfFuel => OutOfFuel
  end.

(** [strings.Contains]: used to say that a message names something. *)
Fixpoint strings_Contains (s substr : string) : bool :=
  String.prefix substr s ||
  match s with
  | EmptyString => false
  | String _ s' => strings_Contains s' substr
  end.

(** ** Package [task] *)
Module task.

(** Modelled from the spec: [task.Name] is not in the sources.  A Name is
    a resource identifier plus an action identifier, and equality is by
    the (resource, action) pair. *)
Record Name : Type := NewName { Resource : string; Action : string }.

#[global] Instance Name_eq_dec : EqDecision Name.
Proof. solve_decision. Defined.

#[global] Instance Name_countable : Countable Name.
Proof.
  apply (inj_countable' (λ n, (Resource n, Action n))
                        (λ p, NewName p.1 p.2)).
  by intros [].
Defined.

Definition Equal (n o : Name) : bool := bool_decide (n = o).

(** The rest of the package, as the engine uses it. *)
Class Syntax : Type := {
  (** [task.ParseName(string) (Name, error)] *)
  ParseName : string → Name + error;
  (** the method [Name.Name() string], the canonical string form *)
  Name_Name : Name → string;
  (** the constant [task.Remove] *)
  Remove : string;
}.

(** Modelled from the spec: [task.ParseNames] is element-wise
    [ParseName] and fails on the first error. *)
Fixpoint ParseNames `{Syntax} (names : list string) : list Name + error :=
  match names with
  | [] => inl []
  | name :: names' =>
      match ParseName name with
      | inr err => inr err
      | inl n =>
          match ParseNames names' with
          | inr err => inr err
          | inl ns => inl (n :: ns)
          end
      end
  end.

(** Modelled from the spec: [task.Stack], the explicit active path of
    the collector, a sequence of Names in push order. *)
Record Stack : Type := mkStack { names : list Name }.

Definition NewStack : Stack := mkStack [].

Definition Stack_Contains (s : Stack) (name : Name) : bool :=
  existsb (λ item, Equal item name) (names s).

Definition Stack_Push (s : Stack) (name : Name) : Stack :=
  mkStack (names s ++ [name]).

Definition Stack_Pop (s : Stack) : Stack :=
  mkStack (removelast (names s)).

Definition Stack_Names `{Syntax} (s : Stack) : list string :=
  map Name_Name (names s).

End task.

(** ** Package [config] *)
Module config.
Import task.

(** The interface [config.Resolver].  A Go call returning [(v, err)] is a
    pair: the callers below store [v] before they look at [err]. *)
Record Resolver : Type := {
  Resolve : string → string * option error;
  ResolveSlice : list string → list string * option error;
}.

(** Types of the package that the sources only mention. *)
Class Types : Type := {
  PathGlobs : Type;
  Annotations : Type;
  ImageConfig : Type;
  MountConfig : Type;
  AliasConfig : Type;
  ComposeConfig : Type;
}.

(** [ShlexSlice], job.go *)
Record ShlexSlice : Type := {
  original : string;
  parsed : list string;
}.

Definition ShlexSlice_String (s : ShlexSlice) : string := original s.
Definition ShlexSlice_Value (s : ShlexSlice) : list string := parsed s.
Definition ShlexSlice_Empty (s : ShlexSlice) : bool :=
  bool_decide (original s = "").

(** [Device], job.go *)
Record Device : Type := {
  Host : string;
  Container : string;
  Permissions : string;
}.

(** The embedded struct [Dependent]; job.go reads its field [Depends]. *)
Record Dependent : Type := { Depends : list string }.

(** [JobConfig], job.go *)
Record JobConfig `{Types} : Type := {
  Use : string;
  Artifact : PathGlobs;
  Command : ShlexSlice;
  Entrypoint : ShlexSlice;
  Sources : PathGlobs;
  Mounts : list string;
  Privileged : bool;
  Interactive : bool;
  Env : list string;
  ProvideDocker : bool;
  NetMode : string;
  WorkingDir : string;
  User : string;
  Ports : list string;
  Devices : list Device;
  Labels : gmap string string;
  JobConfig_Dependent : Dependent;
  JobConfig_Annotations : Annotations;
}.

(** [EnvConfig], env.go *)
Record EnvConfig `{Types} : Type := {
  Files : list string;
  Variables : list string;
  EnvConfig_Annotations : Annotations;
}.

(** [config.VolumeConfig], as tasks/volume.go reads it. *)
Record VolumeConfig : Type := {
  Path : string;
  Mount : string;
  Mode : string;
}.

(** The interface [config.Resource] with the dynamic type of its value:
    the type switches of the engine inspect it. *)
Inductive Resource `{Types} : Type :=
  | ofImageConfig (conf : ImageConfig)
  | ofJobConfig (conf : JobConfig)
  | ofMountConfig (conf : MountConfig)
  | ofAliasConfig (conf : AliasConfig)
  | ofEnvConfig (conf : EnvConfig)
  | ofComposeConfig (conf : ComposeConfig)
  | ofVolumeConfig (conf : VolumeConfig).

(** The spec's variant kinds. *)
Inductive Kind : Type :=
  image | job | mount | alias | env | compose | volume.

#[global] Instance Kind_eq_dec : EqDecision Kind.
Proof. solve_decision. Defined.

(** The variant set of the spec's data model. *)
Definition variants : list Kind :=
  [image; job; mount; alias; env; compose; volume].

Definition kindOf `{Types} (r : Resource) : Kind :=
  match r with
  | ofImageConfig _ => image
  | ofJobConfig _ => job
  | ofMountConfig _ => mount
  | ofAliasConfig _ => alias
  | ofEnvConfig _ => env
  | ofComposeConfig _ => compose
  | ofVolumeConfig _ => volume
  end.

(** [%T] of a resource, as [fmt] prints the dynamic type. *)
Definition typeName `{Types} (r : Resource) : string :=
  match r with
  | ofImageConfig _ => "*config.ImageConfig"
  | ofJobConfig _ => "*config.JobConfig"
  | ofMountConfig _ => "*config.MountConfig"
  | ofAliasConfig _ => "*config.AliasConfig"
  | ofEnvConfig _ => "*config.EnvConfig"
  | ofComposeConfig _ => "*config.ComposeConfig"
  | ofVolumeConfig _ => "*config.VolumeConfig"
  end.

(** [Resolve] of the resource kinds whose files are not in the sources. *)
Class Methods `{Types} : Type := {
  ImageConfig_Resolve : ImageConfig → Resolver → Resource * option error;
  MountConfig_Resolve : MountConfig → Resolver → Resource * option error;
  AliasConfig_Resolve : AliasConfig → Resolver → Resource * option error;
  ComposeConfig_Resolve : ComposeConfig → Resolver → Resource * option error;
  VolumeConfig_Resolve : VolumeConfig → Resolver → Resource * option error;
}.

(** A store of config objects, by address. *)
Abbreviation Store := (gmap positive Resource).

Section methods.
Context `{Syntax} `{Types}.

(** [JobConfig.Dependencies], job.go:113 *)
Definition JobConfig_Dependencies (c : JobConfig) : list Name * option error :=
  match ParseNames (Depends (JobConfig_Dependent c)) with
  | inr err => ([], Some err)
  | inl deps =>
      match ParseNames (Mounts c) with
      | inr err => ([], Some err)
      | inl mnts =>
          match ParseName (Use c) with
          | inr err => ([], Some err)
          | inl use => (mnts ++ (deps ++ [use]), None)
          end
      end
  end.

(** [EnvConfig.Dependencies], env.go:35 *)
Definition EnvConfig_Dependencies (c : EnvConfig) : list Name * option error :=
  ([], None).

(** Assignments [conf.F = v] to the local copy. *)
Definition JobConfig_with_Env (conf : JobConfig) (v : list string) : JobConfig :=
  {| Use := Use conf; Artifact := Artifact conf; Command := Command conf;
     Entrypoint := Entrypoint conf; Sources := Sources conf;
     Mounts := Mounts conf; Privileged := Privileged conf;
     Interactive := Interactive conf; Env := v;
     ProvideDocker := ProvideDocker conf; NetMode := NetMode conf;
     WorkingDir := WorkingDir conf; User := User conf; Ports := Ports conf;
     Devices := Devices conf; Labels := Labels conf;
     JobConfig_Dependent := JobConfig_Dependent conf;
     JobConfig_Annotations := JobConfig_Annotations conf |}.

Definition JobConfig_with_WorkingDir (conf : JobConfig) (v : string) : JobConfig :=
  {| Use := Use conf; Artifact := Artifact conf; Command := Command conf;
     Entrypoint := Entrypoint conf; Sources := Sources conf;
     Mounts := Mounts conf; Privileged := Privileged conf;
     Interactive := Interactive conf; Env := Env conf;
     ProvideDocker := ProvideDocker conf; NetMode := NetMode conf;
     WorkingDir := v; User := User conf; Ports := Ports conf;
     Devices := Devices conf; Labels := Labels conf;
     JobConfig_Dependent := JobConfig_Dependent conf;
     JobConfig_Annotations := JobConfig_Annotations conf |}.

Definition JobConfig_with_User (conf : JobConfig) (v : string) : JobConfig :=
  {| Use := Use conf; Artifact := Artifact conf; Command := Command conf;
     Entrypoint := Entrypoint conf; Sources := Sources conf;
     Mounts := Mounts conf; Privileged := Privileged conf;
     Interactive := Interactive conf; Env := Env conf;
     ProvideDocker := ProvideDocker conf; NetMode := NetMode conf;
     WorkingDir := WorkingDir conf; User := v; Ports := Ports conf;
     Devices := Devices conf; Labels := Labels conf;
     JobConfig_Dependent := JobConfig_Dependent conf;
     JobConfig_Annotations := JobConfig_Annotations conf |}.

Definition JobConfig_with_NetMode (conf : JobConfig) (v : string) : JobConfig :=
  {| Use := Use conf; Artifact := Artifact conf; Command := Command conf;
     Entrypoint := Entrypoint conf; Sources := Sources conf;
     Mounts := Mounts conf; Privileged := Privileged conf;
     Interactive := Interactive conf; Env := Env conf;
     ProvideDocker := ProvideDocker conf; NetMode := v;
     WorkingDir := WorkingDir conf; User := User conf; Ports := Ports conf;
     Devices := Devices conf; Labels := Labels conf;
     JobConfig_Dependent := JobConfig_Dependent conf;
     JobConfig_Annotations := JobConfig_Annotations conf |}.

Definition EnvConfig_with_Files (conf : EnvConfig) (v : list string) : EnvConfig :=
  {| Files := v; Variables := Variables conf;
     EnvConfig_Annotations := EnvConfig_Annotations conf |}.

Definition EnvConfig_with_Variables (conf : EnvConfig) (v : list string) : EnvConfig :=
  {| Files := Files conf; Variables := v;
     EnvConfig_Annotations := EnvConfig_Annotations conf |}.

(** [JobConfig.Resolve], job.go:193, on the value [*c]: the copy
    [conf := *c] receives every assignment, and [&conf] is returned with
    the error, also when a step failed. *)
Definition JobConfig_Resolve (c : JobConfig) (resolver : Resolver)
  : JobConfig * option error :=
  let conf := c in
  let '(v, err) := ResolveSlice resolver (Env c) in
  let conf := JobConfig_with_Env conf v in
  if err is Some _ then (conf, err) else
  let '(v, err) := Resolve resolver (WorkingDir c) in
  let conf := JobConfig_with_WorkingDir conf v in
  if err is Some _ then (conf, err) else
  let '(v, err) := Resolve resolver (User c) in
  let conf := JobConfig_with_User conf v in
  if err is Some _ then (conf, err) else
  let '(v, err) := Resolve resolver (NetMode c) in
  let conf := JobConfig_with_NetMode conf v in
  (conf, err).

(** [EnvConfig.Resolve], env.go:45 *)
Definition EnvConfig_Resolve (c : EnvConfig) (resolver : Resolver)
  : EnvConfig * option error :=
  let conf := c in
  let '(v, err) := ResolveSlice resolver (Files c) in
  let conf := EnvConfig_with_Files conf v in
  if err is Some _ then (conf, err) else
  let '(v, err) := ResolveSlice resolver (Variables c) in
  let conf := EnvConfig_with_Variables conf v in
  (conf, err).

(** The interface method [Resource.Resolve], dispatched on the dynamic
    type. *)
Definition Resource_Resolve `{!Methods} (r : Resource) (resolver : Resolver)
  : Resource * option error :=
  match r with
  | ofImageConfig c => ImageConfig_Resolve c resolver
  | ofJobConfig c =>
      let '(conf, err) := JobConfig_Resolve c resolver in (ofJobConfig conf, err)
  | ofMountConfig c => MountConfig_Resolve c resolver
  | ofAliasConfig c => AliasConfig_Resolve c resolver
  | ofEnvConfig c =>
      let '(conf, err) := EnvConfig_Resolve c resolver in (ofEnvConfig conf, err)
  | ofComposeConfig c => ComposeConfig_Resolve c resolver
  | ofVolumeConfig c => VolumeConfig_Resolve c resolver
  end.

(** *** The receivers as heap objects

    [Resolve] has a pointer receiver and returns the address of its local
    copy.  A store maps addresses to config objects; [&conf] of an escaping
    local is a fresh address. *)

Definition new (σ : Store) (v : Resource) : Store * positive :=
  let p := fresh (dom σ) in (<[p := v]> σ, p).






End methods.

(** [config.Config], as the engine reads it. *)
Record MetaConfig : Type := {
  Default : string;
  ExecID : string;
  Project : string;
}.

Record Config `{Types} : Type := {
  Resources : gmap string Resource;
  Meta : MetaConfig;
  Config_WorkingDir : string;
}.

(** *** Validation, job.go:129-178 *)

(** The package [configtf/path] and the methods of [PathGlobs], which the
    sources only call. *)
Class Paths `{Types} : Type := {
  (** [pth.Path] and [pth.Error] *)
  pth_Path : Type;
  pth_Error : Type;
  (** [path.Add(name)] *)
  Path_Add : pth_Path → string → pth_Path;
  (** [pth.Errorf(path, format)] *)
  pth_Errorf : pth_Path → string → pth_Error;
  (** [PathGlobs.Validate] *)
  PathGlobs_Validate : PathGlobs → option error;
}.

(** [validator], as [Validate] uses it: [newValidator(name, f)] keeps the
    name and the function, [validate()] calls the function. *)
Record validator : Type := newValidator {
  validator_name : string;
  validate : unit → option error;
}.

Section validation.
Context `{Types} `{!Paths}.

(** [JobConfig.validateUse], job.go:145 *)
Definition validateUse (c : JobConfig) (config : Config) : option error :=
  let err := Use c +:+ " is not an image resource" in
  match Resources config !! Use c with
  | None => Some err
  | Some res =>
      match res with
      | ofImageConfig _ => None
      | _ => Some err
      end
  end.

(** [JobConfig.validateMounts], job.go:162 *)
Fixpoint validateMounts_range (range : list string) (config : Config)
  : option error :=
  match range with
  | [] => None
  | mount' :: range =>
      let err := mount' +:+ " is not a mount resource" in
      match Resources config !! mount' with
      | None => Some err
      | Some res =>
          match res with
          | ofMountConfig _ => validateMounts_range range config
          | _ => Some err
          end
      end
  end.

Definition validateMounts (c : JobConfig) (config : Config) : option error :=
  validateMounts_range (Mounts c) config.

(** The loop of [Validate] over its validators. *)
Fixpoint Validate_range (range : list validator) (path : pth_Path)
  : option pth_Error :=
  match range with
  | [] => None
  | validator :: range =>
      match validate validator () with
      | Some err => Some (pth_Errorf (Path_Add path (validator_name validator)) err)
      | None => Validate_range range path
      end
  end.

(** [JobConfig.Validate], job.go:130 *)
Definition JobConfig_Validate (c : JobConfig) (path : pth_Path)
    (config : Config) : option pth_Error :=
  let validators :=
    [ newValidator "use" (λ _, validateUse c config);
      newValidator "mounts" (λ _, validateMounts c config);
      newValidator "artifact" (λ _, PathGlobs_Validate (Artifact c));
      newValidator "sources" (λ _, PathGlobs_Validate (Sources c)) ] in
  Validate_range validators path.

(** [EnvConfig.Validate], env.go:40 *)
Definition EnvConfig_Validate (c : EnvConfig) (path : pth_Path)
    (config : Config) : option pth_Error :=
  None.

End validation.

(** *** Loading, job.go:233-263 *)

(** A value of type [interface{}] in the raw configuration: a string, a
    bool, or a value of another type, seen through the name of its type. *)
Inductive Dyn : Type :=
  | DString (value : string)
  | DBool (value : bool)
  | DOther (typeName : string).

(** [shlex.Split], [fmt]'s verb [%q], the terminal test on standard input
    and [configtf.Transform] into a fresh [JobConfig]. *)
Class Loader `{Types} : Type := {
  shlex_Split : string → list string * option error;
  fmt_q : string → string;
  IsTerminal : bool;
  Transform_JobConfig : string → gmap string Dyn → JobConfig * option error;
}.

Section loading.
Context `{Types} `{!Loader}.

(** [ShlexSlice.TransformConfig], job.go:235.  [raw] is the
    [reflect.Value]: [None] when it is not valid.  The receiver is
    returned as the call leaves it. *)
Definition ShlexSlice_TransformConfig (s : ShlexSlice) (raw : option Dyn)
  : ShlexSlice * option error :=
  match raw with
  | None => (s, Some "must be a string, was undefined")
  | Some (DString value) =>
      let s := {| original := value; parsed := parsed s |} in
      let '(split, err) := shlex_Split value in
      let s := {| original := original s; parsed := split |} in
      if err is Some err then
        (s, Some ("failed to parse command " +:+ fmt_q value +:+ ": " +:+ err))
      else (s, None)
  | Some (DBool _) => (s, Some "must be a string, not bool")
  | Some (DOther typeName) => (s, Some ("must be a string, not " +:+ typeName))
  end.

(** [jobFromConfig], job.go:254.  The map [values] is the caller's; it is
    returned as the call leaves it. *)
Definition jobFromConfig (name : string) (values : gmap string Dyn)
  : gmap string Dyn * (JobConfig * option error) :=
  let isTerminal := IsTerminal in
  let values :=
    if isTerminal then
      if values !! "interactive" is Some _ then values
      else <["interactive" := DBool true]> values
    else values in
  (values, Transform_JobConfig name values).

End loading.

End config.

(** ** Package [context] *)
Module context.
Import task.

(** What lies outside the process: the container engine behind
    [client.DockerClient] and the files that tasks read and write. *)
Class Backend : Type := {
  DockerClient : Type;
  World : Type;
}.

(** [context.Settings] *)
Record Settings : Type := NewSettings {
  Quiet : bool;
  BindMount : bool;
}.

(** Modelled from the spec: [context.ExecuteContext] is not in the
    sources.  It holds the set of Names marked modified in this run, the
    registry from resource name to the latest resolved Resource, the
    variable environment, the client and the run settings. *)
Record ExecuteContext `{config.Types} `{Backend} : Type := {
  modified : gset Name;
  Resources : gmap string config.Resource;
  Env : config.Resolver;
  Client : DockerClient;
  settings : Settings;
}.

Section context.
Context `{config.Types} `{Backend}.

(** [ctx.Resources.Add(name, resource)]: overwrites a prior entry. *)
Definition Resources_Add (ctx : ExecuteContext) (name : string)
    (resource : config.Resource) : ExecuteContext :=
  {| modified := modified ctx;
     Resources := <[name := resource]> (Resources ctx);
     Env := Env ctx; Client := Client ctx; settings := settings ctx |}.

Definition SetModified (ctx : ExecuteContext) (name : Name) : ExecuteContext :=
  {| modified := {[name]} ∪ modified ctx;
     Resources := Resources ctx;
     Env := Env ctx; Client := Client ctx; settings := settings ctx |}.

Definition IsModified (ctx : ExecuteContext) (name : Name) : bool :=
  bool_decide (name ∈ modified ctx).

(** A context starts with nothing modified and nothing resolved. *)
Definition NewExecuteContext (conf : config.Config) (client : DockerClient)
    (execEnv : config.Resolver) (s : Settings) : ExecuteContext :=
  {| modified := ∅; Resources := ∅; Env := execEnv; Client := client;
     settings := s |}.

End context.
End context.

(** ** Package [types] *)
Module types.
Import task context.

Section types.
Context `{config.Types} `{Backend}.

(** The interface [types.Task].  [Run] and [Stop] receive the context by
    pointer and act on the world, so both are threaded through. *)
Record Task : Type := {
  Task_Name : Name;
  Task_Run : World → ExecuteContext → bool →
             World * ExecuteContext * (bool * option error);
  Task_Stop : World → ExecuteContext → World * ExecuteContext * option error;
}.

(** The interface [types.TaskConfig]. *)
Record TaskConfig : Type := {
  TaskConfig_Name : Name;
  TaskConfig_Resource : config.Resource;
  TaskConfig_Dependencies : list Name;
  TaskConfig_Task : config.Resource → Task;
}.

End types.
End types.

(** ** Package [tasks] *)
Module tasks.
Import task context types.

(** Functions of other packages that tasks.go calls. *)
Class Packages `{Syntax} `{config.Types} `{Backend} : Type := {
  (** [image.GetTaskConfig] and its siblings *)
  image_GetTaskConfig : Name → config.ImageConfig → TaskConfig + error;
  job_GetTaskConfig : Name → config.JobConfig → TaskConfig + error;
  mount_GetTaskConfig : Name → config.MountConfig → TaskConfig + error;
  alias_GetTaskConfig : Name → config.AliasConfig → TaskConfig + error;
  env_GetTaskConfig : Name → config.EnvConfig → TaskConfig + error;
  compose_GetTaskConfig : Name → config.ComposeConfig → TaskConfig + error;
  (** [execenv.NewExecEnvFromConfig(execID, project, workingDir)] *)
  NewExecEnvFromConfig : string → string → string → config.Resolver * option error;
  (** [fmt]'s verb [%q] on a string and on a [task.Name] *)
  Quote : string → string;
  QuoteName : Name → string;
}.

Section tasks.
Context `{Syntax} `{config.Types} `{!config.Methods} `{Backend} `{!Packages}.

(** [TaskCollection], tasks.go:25 *)
Record TaskCollection : Type := { tasks : list TaskConfig }.

Definition add (c : TaskCollection) (task : TaskConfig) : TaskCollection :=
  {| tasks := tasks c ++ [task] |}.

Definition All (c : TaskCollection) : list TaskConfig := tasks c.

Definition Get (c : TaskCollection) (name : Name) : option TaskConfig :=
  List.find (λ task, Equal (TaskConfig_Name task) name) (tasks c).

Definition newTaskCollection : TaskCollection := {| tasks := [] |}.

(** [collectionState], tasks.go:59.  Go shares one state through all the
    recursive calls by pointer; here every call returns the state it
    leaves behind. *)
Record collectionState : Type := {
  cs_tasks : TaskCollection;
  taskStack : Stack;
}.

(** [RunOptions], tasks.go:183 *)
Record RunOptions : Type := {
  Client : DockerClient;
  Config : config.Config;
  Tasks : list string;
  Quiet : bool;
  BindMount : bool;
}.

(** [options.Tasks = v] on the callee's copy of the options. *)
Definition RunOptions_with_Tasks (options : RunOptions) (v : list string)
  : RunOptions :=
  {| Client := Client options; Config := Config options; Tasks := v;
     Quiet := Quiet options; BindMount := BindMount options |}.

(** [buildTaskConfig], tasks.go:103 *)
Definition buildTaskConfig (name : Name) (resource : config.Resource)
  : outcome (TaskConfig + error) :=
  match resource with
  | config.ofImageConfig conf => Returns (image_GetTaskConfig name conf)
  | config.ofJobConfig conf => Returns (job_GetTaskConfig name conf)
  | config.ofMountConfig conf => Returns (mount_GetTaskConfig name conf)
  | config.ofAliasConfig conf => Returns (alias_GetTaskConfig name conf)
  | config.ofEnvConfig conf => Returns (env_GetTaskConfig name conf)
  | config.ofComposeConfig conf => Returns (compose_GetTaskConfig name conf)
  | conf => Panics ("Unexpected config type " +:+ config.typeName conf)
  end.

(** The body of the [for] loop of [collect], tasks.go:65-98, over the
    strings still to visit.  [range] is evaluated once, so the
    assignment to [options.Tasks] inside the loop does not change the
    strings visited.  [self] is the recursive call. *)
Fixpoint collect_range
    (self : RunOptions → collectionState →
            outcome (collectionState * (TaskCollection + error)))
    (options : RunOptions) (range : list string) (state : collectionState)
  : outcome (collectionState * (TaskCollection + error)) :=
  match range with
  | [] => Returns (state, inl (cs_tasks state))
  | taskname :: range =>
      match ParseName taskname with
      | inr err => Returns (state, inr err)
      | inl task =>
          let resourceName := Resource task in
          match config.Resources (Config options) !! resourceName with
          | None =>
              Returns (state,
                inr ("resource " +:+ Quote resourceName +:+ " does not exist"))
          | Some resource =>
              built ← buildTaskConfig task resource;
              match built with
              | inr err => Returns (state, inr err)
              | inl taskConfig =>
                  if Stack_Contains (taskStack state) (TaskConfig_Name taskConfig)
                  then
                    Returns (state,
                      inr ("Invalid dependency cycle: " +:+
                           String.concat ", " (Stack_Names (taskStack state))))
                  else
                    let state :=
                      {| cs_tasks := cs_tasks state;
                         taskStack := Stack_Push (taskStack state)
                                        (TaskConfig_Name taskConfig) |} in
                    let depStrings :=
                      map Name_Name (TaskConfig_Dependencies taskConfig) in
                    let options := RunOptions_with_Tasks options depStrings in
                    '(state, res) ← self options state;
                    match res with
                    | inr err => Returns (state, inr err)
                    | inl _ =>
                        let state :=
                          {| cs_tasks := add (cs_tasks state) taskConfig;
                             taskStack := taskStack state |} in
                        let state :=
                          {| cs_tasks := cs_tasks state;
                             taskStack := Stack_Pop (taskStack state) |} in
                        collect_range self options range state
                    end
              end
          end
      end
  end.

(** [collect], tasks.go:64.  [fuel] bounds the depth of the recursion. *)
Fixpoint collect (fuel : nat) (options : RunOptions) (state : collectionState)
  : outcome (collectionState * (TaskCollection + error)) :=
  match fuel with
  | 0 => OutOfFuel
  | S fuel => collect_range (collect fuel) options (Tasks options) state
  end.

(** [collectTasks], tasks.go:52 *)
Definition collectTasks (fuel : nat) (options : RunOptions)
  : outcome (TaskCollection + error) :=
  '(_, res) ← collect fuel options
      {| cs_tasks := newTaskCollection; taskStack := NewStack |};
  Returns res.

(** What the engine does that can be observed: its log lines, its calls
    of [Run] and [Stop] on tasks, and its marks on the context.  A [Run]
    event carries the loop's [taskConfig], the task, the argument
    [depsModified] and the two results. *)
Inductive Level : Type := Debug | Info | Warn.

Inductive Event : Type :=
  | Log (level : Level) (msg : string)
  | CallRun (taskConfig : TaskConfig) (currentTask : Task)
            (depsModified : bool) (modified : bool) (err : option error)
  | CallSetModified (name : Name)
  | CallStop (startedTask : Task) (err : option error).

(** [reversed], tasks.go:122: [i] runs from [len(tasks)-1] down to [0];
    [n] is [i+1]. *)
Fixpoint reversed_loop (tasks : list Task) (n : nat) (reversed : list Task)
  : list Task :=
  match n with
  | 0 => reversed
  | S i =>
      match tasks !! i with
      | Some t => reversed_loop tasks i (reversed ++ [t])
      | None => reversed
      end
  end.

Definition reversed (tasks : list Task) : list Task :=
  reversed_loop tasks (length tasks) [].

(** [hasModifiedDeps], tasks.go:173 *)
Fixpoint hasModifiedDeps (ctx : ExecuteContext) (deps : list Name) : bool :=
  match deps with
  | [] => false
  | dep :: deps => if IsModified ctx dep then true else hasModifiedDeps ctx deps
  end.

(** The [for] loop of [executeTasks], tasks.go:143-169.  It returns the
    world, the context, [startedTasks], the events of the iterations and
    the value that [executeTasks] returns.  The log fields (times, the
    task) are left out of the log events. *)
Fixpoint executeTasks_range (range : list TaskConfig) (w : World)
    (ctx : ExecuteContext) (startedTasks : list Task)
  : World * ExecuteContext * list Task * list Event * option error :=
  match range with
  | [] => (w, ctx, startedTasks, [], None)
  | taskConfig :: range =>
      let '(resource, err) :=
        config.Resource_Resolve (TaskConfig_Resource taskConfig) (Env ctx) in
      if err is Some err then (w, ctx, startedTasks, [], Some err) else
      let ctx :=
        Resources_Add ctx (Resource (TaskConfig_Name taskConfig)) resource in
      let currentTask := TaskConfig_Task taskConfig resource in
      let startedTasks := startedTasks ++ [currentTask] in
      let starting :=
        Log Debug "Start" ::
        (if bool_decide (Action (TaskConfig_Name taskConfig) ≠ Remove)
         then [Log Info "Start"] else []) in
      let depsModified :=
        hasModifiedDeps ctx (TaskConfig_Dependencies taskConfig) in
      let '(w, ctx, (modified, err)) :=
        Task_Run currentTask w ctx depsModified in
      let ran := [CallRun taskConfig currentTask depsModified modified err] in
      if err is Some err then
        (w, ctx, startedTasks, starting ++ ran,
         Some ("failed to execute task " +:+ QuoteName (Task_Name currentTask)
               +:+ ": " +:+ err))
      else
      let '(ctx, marked) :=
        if modified
        then (SetModified ctx (Task_Name currentTask),
              [CallSetModified (Task_Name currentTask)])
        else (ctx, []) in
      let '(w, ctx, startedTasks, rest, err) :=
        executeTasks_range range w ctx startedTasks in
      (w, ctx, startedTasks,
       starting ++ ran ++ marked ++ Log Debug "Complete" :: rest, err)
  end.

(** The loop of the deferred function, tasks.go:135-139. *)
Fixpoint stopTasks (range : list Task) (w : World) (ctx : ExecuteContext)
  : World * ExecuteContext * list Event :=
  match range with
  | [] => (w, ctx, [])
  | startedTask :: range =>
      let '(w, ctx, err) := Task_Stop startedTask w ctx in
      let warned :=
        if err is Some err
        then [Log Warn ("Failed to stop task " +:+
                        QuoteName (Task_Name startedTask) +:+ ": " +:+ err)]
        else [] in
      let '(w, ctx, rest) := stopTasks range w ctx in
      (w, ctx, CallStop startedTask err :: warned ++ rest)
  end.

(** [executeTasks], tasks.go:130.  The deferred function runs when the
    loop is left, on each of its exits, and sees the final
    [startedTasks]. *)
Definition executeTasks (w : World) (ctx : ExecuteContext)
    (tasks : TaskCollection)
  : World * ExecuteContext * list Event * option error :=
  let '(w, ctx, startedTasks, events, err) :=
    executeTasks_range (All tasks) w ctx [] in
  let '(w, ctx, stopped) := stopTasks (reversed startedTasks) w ctx in
  (w, ctx,
   Log Debug "executing tasks" :: events ++
   Log Debug "stopping tasks" :: stopped,
   err).

(** [Run], tasks.go:192 *)
Definition Run (fuel : nat) (options : RunOptions) (w : World)
  : outcome (World * list Event * option error) :=
  let defaulted :=
    if bool_decide (length (Tasks options) = 0) then
      if bool_decide (config.Default (config.Meta (Config options)) = "")
      then inr "no task to run, and no default task defined"
      else inl (RunOptions_with_Tasks options
                  [config.Default (config.Meta (Config options))])
    else inl options in
  match defaulted with
  | inr err => Returns (w, [], Some err)
  | inl options =>
      let '(execEnv, err) :=
        NewExecEnvFromConfig
          (config.ExecID (config.Meta (Config options)))
          (config.Project (config.Meta (Config options)))
          (config.Config_WorkingDir (Config options)) in
      if err is Some err then Returns (w, [], Some err) else
      collected ← collectTasks fuel options;
      match collected with
      | inr err => Returns (w, [], Some err)
      | inl tasks =>
          let ctx :=
            NewExecuteContext (Config options) (Client options) execEnv
              (NewSettings (Quiet options) (BindMount options)) in
          let '(w, _, events, err) := executeTasks w ctx tasks in
          Returns (w, events, err)
      end
  end.

(** *** Vocabulary of the properties *)

(** The TaskConfig that the loop of [collect] builds for a requested
    string (tasks.go:66-79), when all three steps succeed. *)
Definition configFor (conf : config.Config) (taskname : string)
  : option TaskConfig :=
  match ParseName taskname with
  | inr _ => None
  | inl task =>
      match config.Resources conf !! Resource task with
      | None => None
      | Some resource =>
          match buildTaskConfig task resource with
          | Returns (inl taskConfig) => Some taskConfig
          | _ => None
          end
      end
  end.

(** What a successful call of the collector appends for the strings
    [range]: a TaskConfig for each of them, and before each appended
    TaskConfig those built for the strings of its dependencies. *)
Definition collects (conf : config.Config) (range : list string)
    (new : list TaskConfig) : Prop :=
  (∀ s, s ∈ range → ∃ j T, new !! j = Some T ∧ configFor conf s = Some T) ∧
  (∀ i T d, new !! i = Some T → d ∈ TaskConfig_Dependencies T →
     ∃ j T', j < i ∧ new !! j = Some T' ∧
             configFor conf (Name_Name d) = Some T').



(** The factories bind the TaskConfig of each dependency of [T] to the
    Name under which [T] lists it. *)
Definition keeps_names (conf : config.Config) (T : TaskConfig) : Prop :=
  ∀ d T', d ∈ TaskConfig_Dependencies T →
    configFor conf (Name_Name d) = Some T' → TaskConfig_Name T' = d.

(** Every Name a TaskConfig depends on is the Name of a TaskConfig
    strictly earlier in the sequence. *)
Definition dependency_first (l : list TaskConfig) : Prop :=
  ∀ i T d, l !! i = Some T → d ∈ TaskConfig_Dependencies T →
    ∃ j T', j < i ∧ l !! j = Some T' ∧ TaskConfig_Name T' = d.

(** The tasks on which [Run], respectively [Stop], was called, in the
    order of the calls. *)
Fixpoint runsOf (events : list Event) : list Task :=
  match events with
  | [] => []
  | CallRun _ t _ _ _ :: events => t :: runsOf events
  | _ :: events => runsOf events
  end.

Fixpoint stopsOf (events : list Event) : list Task :=
  match events with
  | [] => []
  | CallStop t _ :: events => t :: stopsOf events
  | _ :: events => stopsOf events
  end.

(** The TaskConfigs whose task was run. *)
Fixpoint ranOf (events : list Event) : list TaskConfig :=
  match events with
  | [] => []
  | CallRun taskConfig _ _ _ _ :: events => taskConfig :: ranOf events
  | _ :: events => ranOf events
  end.

(** The calls on tasks, without the log lines and the marks. *)
Fixpoint callsOf (events : list Event) : list Event :=
  match events with
  | [] => []
  | Log _ _ :: events => callsOf events
  | CallSetModified _ :: events => callsOf events
  | e :: events => e :: callsOf events
  end.

(** The Names of the tasks whose [Run] returned [modified = true] and no
    error. *)
Fixpoint modifiedBy (events : list Event) : gset Name :=
  match events with
  | [] => ∅
  | CallRun _ t _ true None :: events => {[Task_Name t]} ∪ modifiedBy events
  | _ :: events => modifiedBy events
  end.

(** [hasModifiedDeps] on the set of marked Names. *)
Definition anyModified (M : gset Name) (deps : list Name) : bool :=
  existsb (λ dep, bool_decide (dep ∈ M)) deps.

(** The events agree with a modified set that starts as [M]: each [Run]
    receives whether a dependency of its TaskConfig is marked, the run
    changes the set within [R], and a run that returns [modified = true]
    and no error is followed by the mark of its task. *)
Fixpoint observes (R : relation (gset Name)) (M : gset Name)
    (events : list Event) : Prop :=
  match events with
  | [] => True
  | CallRun T t depsModified m err :: events =>
      depsModified = anyModified M (TaskConfig_Dependencies T) ∧
      ∃ M', R M M' ∧
        observes R
          (if m then if err is None then {[Task_Name t]} ∪ M' else M' else M')
          events
  | _ :: events => observes R M events
  end.

(** Every mark comes directly after a [Run] of the marked task that
    returned [modified = true] and no error; [prev] is the event before
    [events]. *)
Fixpoint marks_follow (prev : option Event) (events : list Event) : Prop :=
  match events with
  | [] => True
  | e :: events =>
      match e with
      | CallSetModified n =>
          ∃ T t d, prev = Some (CallRun T t d true None) ∧ Task_Name t = n
      | _ => True
      end ∧ marks_follow (Some e) events
  end.

(** Each task that was run is the task of its TaskConfig for some
    resource. *)
Definition instantiated (e : Event) : Prop :=
  match e with
  | CallRun T t _ _ _ => ∃ resource, t = TaskConfig_Task T resource
  | _ => True
  end.

(** What running the task of [taskConfig] does to the modified set of the
    context, as a relation between the set before and the set after:
    equality when tasks leave the marking to the engine, inclusion when
    they may add marks of their own. *)
Definition run_frames (R : relation (gset Name)) (taskConfig : TaskConfig)
  : Prop :=
  ∀ resource w ctx depsModified,
    R (modified ctx)
      (modified (Task_Run (TaskConfig_Task taskConfig resource)
                   w ctx depsModified).1.2).

(** The TaskConfigs whose task was run, each with the error of its run. *)
Fixpoint runResults (events : list Event) : list (TaskConfig * option error) :=
  match events with
  | [] => []
  | CallRun taskConfig _ _ _ err :: events =>
      (taskConfig, err) :: runResults events
  | _ :: events => runResults events
  end.

(** The warnings logged. *)
Fixpoint warningsOf (events : list Event) : list string :=
  match events with
  | [] => []
  | Log Warn msg :: events => msg :: warningsOf events
  | _ :: events => warningsOf events
  end.

(** The warning for each [Stop] that returned an error. *)
Fixpoint stopFailures (events : list Event) : list string :=
  match events with
  | [] => []
  | CallStop t (Some err) :: events =>
      ("Failed to stop task " +:+ QuoteName (Task_Name t) +:+ ": " +:+ err)
      :: stopFailures events
  | _ :: events => stopFailures events
  end.

(** Running the task of [taskConfig] leaves the registry of resolved
    resources of the context as it is. *)
Definition run_keeps_resources (taskConfig : TaskConfig) : Prop :=
  ∀ resource w ctx depsModified,
    Resources (Task_Run (TaskConfig_Task taskConfig resource)
                 w ctx depsModified).1.2
    = Resources ctx.

End tasks.
End tasks.

(** ** The volume task, tasks/volume.go

    This file is of the time when the tasks were one package: [Run] takes
    the context only and marks the task modified itself. *)
Module volume.
Import tasks.

(** The operating system and the context of that package, which the file
    only calls. *)
Class OS : Type := {
  (** the file system *)
  FS : Type;
  (** [os.Stat(path)]: [IsDir()] of the info, or the error *)
  os_Stat : FS → string → bool + error;
  (** [os.MkdirAll(path, perm)] *)
  os_MkdirAll : FS → string → N → FS * option error;
  (** [filepath.Join(a, b)] *)
  filepath_Join : string → string → string;
  (** [ExecuteContext] and its method [setModified(name)] *)
  ExecuteContext : Type;
  setModified : ExecuteContext → string → ExecuteContext;
}.

Record baseTask : Type := { name : string }.

(** [taskOptions], as [NewVolumeTask] reads it. *)
Record taskOptions `{config.Types} : Type := {
  options_name : string;
  options_config : config.Config;
}.

(** [VolumeTask], volume.go:13 *)
Record VolumeTask : Type := {
  VolumeTask_baseTask : baseTask;
  VolumeTask_config : config.VolumeConfig;
  workingDir : string;
}.

(** [NewVolumeTask], volume.go:20 *)
Definition NewVolumeTask `{config.Types} (options : taskOptions)
    (conf : config.VolumeConfig) : VolumeTask :=
  {| VolumeTask_baseTask := {| name := options_name options |};
     VolumeTask_config := conf;
     workingDir := config.Config_WorkingDir (options_config options) |}.

Section volume.
Context `{OS}.

(** [absPath], volume.go:60 *)
Definition absPath (t : VolumeTask) : string :=
  filepath_Join (workingDir t) (config.Path (VolumeTask_config t)).

(** [exists], volume.go:64 *)
Definition exists_ (t : VolumeTask) (fs : FS) : bool :=
  match os_Stat fs (absPath t) with
  | inr _ => false
  | inl isDir => isDir
  end.

(** [asBind], volume.go:73 *)
Definition asBind (t : VolumeTask) : string :=
  absPath t +:+ ":" +:+ config.Mount (VolumeTask_config t) +:+ ":"
  +:+ config.Mode (VolumeTask_config t).

(** [Run], volume.go:43.  It returns the file system, the context, the
    lines logged and the error. *)
Definition Run (t : VolumeTask) (fs : FS) (ctx : ExecuteContext)
  : FS * ExecuteContext * list (Level * string) * option error :=
  if exists_ t fs then (fs, ctx, [(Debug, "run"); (Debug, "exists")], None)
  else
    let '(fs, err) := os_MkdirAll fs (absPath t) 511 in
    if err is Some err then (fs, ctx, [(Debug, "run")], Some err)
    else
      (fs, setModified ctx (name (VolumeTask_baseTask t)),
       [(Debug, "run"); (Info, "created")], None).

End volume.
End volume.

(** ** A small installation

    Concrete collaborators on which the theorems below are exercised:
    names are written [resource] or [resource:action], an alias is the list
    of the task names it stands for, resolving changes nothing, and a task
    records its calls in the world. *)
Module demo.
Import task context types tasks.

Definition quote : string := String "034"%char "".

(** [split s] is the text before the first colon and, when there is a
    colon, the text after it. *)
Fixpoint split (s : string) : string * option string :=
  match s with
  | EmptyString => ("", None)
  | String c s' =>
      if bool_decide (c = ":"%char) then ("", Some s')
      else let '(r, a) := split s' in (String c r, a)
  end.

Definition parse (s : string) : Name + error :=
  let '(r, a) := split s in
  if bool_decide (r = "") then inr ("invalid task name " +:+ quote +:+ s +:+ quote)
  else inl (NewName r (default "" a)).

Definition show (n : Name) : string :=
  if bool_decide (Action n = "") then Resource n
  else Resource n +:+ ":" +:+ Action n.

#[export] Instance syntax : Syntax :=
  {| ParseName := parse; Name_Name := show; Remove := "rm" |}.

#[export] Instance cfgTypes : config.Types :=
  {| config.PathGlobs := list string;
     config.Annotations := unit;
     config.ImageConfig := unit;
     config.MountConfig := unit;
     config.AliasConfig := list string;
     config.ComposeConfig := unit |}.

#[export] Instance cfgMethods : config.Methods :=
  {| config.ImageConfig_Resolve c _ := (config.ofImageConfig c, None);
     config.MountConfig_Resolve c _ := (config.ofMountConfig c, None);
     config.AliasConfig_Resolve c _ := (config.ofAliasConfig c, None);
     config.ComposeConfig_Resolve c _ := (config.ofComposeConfig c, None);
     config.VolumeConfig_Resolve c _ := (config.ofVolumeConfig c, None) |}.

#[export] Instance backend : Backend :=
  {| DockerClient := unit; World := list string |}.

(** A task that records its calls and answers as told. *)
Definition simpleTask (name : Name) (modified : bool) (err : option error)
  : Task :=
  {| Task_Name := name;
     Task_Run w ctx _ := (w ++ ["run " +:+ show name], ctx, (modified, err));
     Task_Stop w ctx := (w ++ ["stop " +:+ show name], ctx, None) |}.

Definition simpleConfig (name : Name) (resource : config.Resource)
    (deps : list Name) (modified : bool) (err : option error) : TaskConfig :=
  {| TaskConfig_Name := name;
     TaskConfig_Resource := resource;
     TaskConfig_Dependencies := deps;
     TaskConfig_Task _ := simpleTask name modified err |}.

(** A resolver that knows no variables: text with a brace fails. *)
Definition strict (s : string) : string * option error :=
  if strings_Contains s "{" then ("", Some "undefined variable") else (s, None).

Fixpoint strictSlice (l : list string) : list string * option error :=
  match l with
  | [] => ([], None)
  | s :: l' =>
      match strict s with
      | (_, Some err) => (l, Some err)
      | (v, None) =>
          let '(vs, err) := strictSlice l' in
          if err is Some _ then (l, err) else (v :: vs, None)
      end
  end.

Definition strictResolver : config.Resolver :=
  {| config.Resolve := strict; config.ResolveSlice := strictSlice |}.

#[export] Instance packages : Packages :=
  {| image_GetTaskConfig name conf :=
       inl (simpleConfig name (config.ofImageConfig conf) [] true None);
     job_GetTaskConfig name conf :=
       match config.JobConfig_Dependencies conf with
       | (_, Some err) => inr err
       | (deps, None) =>
           inl (simpleConfig name (config.ofJobConfig conf) deps true None)
       end;
     mount_GetTaskConfig name conf :=
       inl (simpleConfig name (config.ofMountConfig conf) [] false None);
     alias_GetTaskConfig name conf :=
       match ParseNames conf with
       | inr err => inr err
       | inl deps =>
           inl (simpleConfig name (config.ofAliasConfig conf) deps false None)
       end;
     env_GetTaskConfig name conf :=
       inl (simpleConfig name (config.ofEnvConfig conf) [] false None);
     compose_GetTaskConfig name conf :=
       inl (simpleConfig name (config.ofComposeConfig conf) [] true None);
     NewExecEnvFromConfig _ _ _ := (strictResolver, None);
     Quote s := quote +:+ s +:+ quote;
     QuoteName n := quote +:+ show n +:+ quote |}.

Definition meta : config.MetaConfig :=
  {| config.Default := ""; config.ExecID := "x"; config.Project := "p" |}.

Definition options (resources : gmap string config.Resource)
    (names : list string) : RunOptions :=
  {| Client := (); Tasks := names; Quiet := false; BindMount := false;
     Config := {| config.Resources := resources; config.Meta := meta;
                  config.Config_WorkingDir := "/w" |} |}.

(** A depends on B and C, which both depend on D. *)
Definition diamond : gmap string config.Resource :=
  list_to_map
    [ ("A", config.ofAliasConfig ["B"; "C"]);
      ("B", config.ofAliasConfig ["D"]);
      ("C", config.ofAliasConfig ["D"]);
      ("D", config.ofAliasConfig []) ].

(** A depends on B, which depends on A. *)
Definition cycle : gmap string config.Resource :=
  list_to_map
    [ ("A", config.ofAliasConfig ["B"]);
      ("B", config.ofAliasConfig ["A"]) ].

(** A job that uses the image [img] and passes a variable. *)
Definition job (use : string) (mounts depends env : list string)
  : config.JobConfig :=
  {| config.Use := use;
     config.Artifact := [];
     config.Command := {| config.original := "make"; config.parsed := ["make"] |};
     config.Entrypoint := {| config.original := ""; config.parsed := [] |};
     config.Sources := [];
     config.Mounts := mounts;
     config.Privileged := false;
     config.Interactive := false;
     config.Env := env;
     config.ProvideDocker := false;
     config.NetMode := "";
     config.WorkingDir := "/src";
     config.User := "";
     config.Ports := [];
     config.Devices := [];
     config.Labels := ∅;
     config.JobConfig_Dependent := {| config.Depends := depends |};
     config.JobConfig_Annotations := () |}.


Definition vol : config.Resource :=
  config.ofVolumeConfig
    {| config.Path := "dist"; config.Mount := "/dist"; config.Mode := "rw" |}.

(** The job [app] uses the image [img] and needs a variable that the
    environment does not define. *)
Definition broken : gmap string config.Resource :=
  list_to_map
    [ ("app", config.ofJobConfig (job "img" [] [] ["HOME={HOME}"]));
      ("img", config.ofImageConfig ()) ].


(** The alias resource for a list of task names. *)
Definition aliasOf (names : list string) : config.Resource :=
  @config.ofAliasConfig cfgTypes names.

(** Nothing has happened yet. *)
Definition w0 : World := [].

Definition ctx0 : ExecuteContext :=
  NewExecuteContext (Config (options ∅ [])) () strictResolver
    (NewSettings false false).

Definition nameA : Name := NewName "a" "".
Definition nameB : Name := NewName "b" "".
Definition nameC : Name := NewName "c" "".

(** [a] succeeds and reports a change, [b] depends on [a] and fails, [c]
    depends on [b]. *)
Definition taskA : TaskConfig :=
  simpleConfig nameA (config.ofAliasConfig []) [] true None.
Definition taskB : TaskConfig :=
  simpleConfig nameB (config.ofAliasConfig []) [nameA] false (Some "exit 1").
Definition taskC : TaskConfig :=
  simpleConfig nameC (config.ofAliasConfig []) [nameB] false None.

(** [b'] depends on [a] and succeeds; [a'] is [a] left unchanged. *)
Definition taskB' : TaskConfig :=
  simpleConfig nameB (config.ofAliasConfig []) [nameA] false None.
Definition taskA' : TaskConfig :=
  simpleConfig nameA (config.ofAliasConfig []) [] false None.

(** Constructors that know the default action only: a Name with an
    action is refused. *)
Definition defaultOnly {A} (make : Name → A → TaskConfig + error)
    (name : Name) (conf : A) : TaskConfig + error :=
  if bool_decide (Action name = "") then make name conf
  else inr ("invalid action " +:+ quote +:+ Action name +:+ quote).

Definition strictPackages : Packages :=
  {| image_GetTaskConfig := defaultOnly image_GetTaskConfig;
     job_GetTaskConfig := defaultOnly job_GetTaskConfig;
     mount_GetTaskConfig := defaultOnly mount_GetTaskConfig;
     alias_GetTaskConfig := defaultOnly alias_GetTaskConfig;
     env_GetTaskConfig := defaultOnly env_GetTaskConfig;
     compose_GetTaskConfig := defaultOnly compose_GetTaskConfig;
     NewExecEnvFromConfig := NewExecEnvFromConfig;
     Quote := Quote;
     QuoteName := QuoteName |}.

(** The Names of the diamond. *)
Definition diamondNames : gset Name :=
  list_to_set [NewName "A" ""; NewName "B" ""; NewName "C" ""; NewName "D" ""].

(** A request with no task name, for a configuration whose default
    task is [D]. *)
Definition optionsDefault : RunOptions :=
  {| Client := (); Tasks := []; Quiet := false; BindMount := false;
     Config := {| config.Resources := diamond;
                  config.Meta := {| config.Default := "D";
                                    config.ExecID := "x";
                                    config.Project := "p" |};
                  config.Config_WorkingDir := "/w" |} |}.

(** Paths are lists of names, a path error is a path with a message, and
    a glob list is valid when no glob is empty. *)
#[export] Instance paths : config.Paths :=
  {| config.pth_Path := list string;
     config.pth_Error := list string * string;
     config.Path_Add path name := path ++ [name];
     config.pth_Errorf path msg := (path, msg);
     config.PathGlobs_Validate globs :=
       if bool_decide ("" ∈ (globs : list string))
       then Some "invalid path glob" else None |}.

(** Splitting at spaces, refusing a quote; standard input is a terminal;
    the transformation reads the key [interactive]. *)
#[export] Instance loader : config.Loader :=
  {| config.shlex_Split s :=
       if strings_Contains s "'" then ([], Some "Unterminated single-quoted string")
       else (String.words s, None);
     config.fmt_q s := quote +:+ s +:+ quote;
     config.IsTerminal := true;
     config.Transform_JobConfig name values :=
       (job "img" [] [] [],
        if values !! "interactive" is Some (config.DBool _) then None
        else Some "interactive must be a bool") |}.

(** The path of the job [app] in the configuration. *)
Definition appPath : config.pth_Path := ["app"].

(** A resolver that changes nothing. *)
Definition idResolver : config.Resolver :=
  {| config.Resolve s := (s, None); config.ResolveSlice l := (l, None) |}.

(** A file system that is the set of its directories; a context that is
    the set of the names marked. *)
#[export] Instance os : volume.OS :=
  {| volume.FS := gset string;
     volume.os_Stat fs path :=
       if bool_decide (path ∈ fs) then inl true
       else inr "no such file or directory";
     volume.os_MkdirAll fs path perm :=
       if bool_decide (path = "") then (fs, Some "mkdir: no such file or directory")
       else ({[path]} ∪ fs, None);
     volume.filepath_Join a b := a +:+ "/" +:+ b;
     volume.ExecuteContext := gset string;
     volume.setModified ctx name := {[name]} ∪ ctx |}.

Definition distVolume : volume.VolumeTask :=
  volume.NewVolumeTask
    {| volume.options_name := "dist";
       volume.options_config := Config (options ∅ []) |}
    {| config.Path := "dist"; config.Mount := "/dist"; config.Mode := "rw" |}.

Definition noDirs : volume.FS := (∅ : gset string).
Definition withDist : volume.FS := ({["/w/dist"]} : gset string).
Definition noneMarked : volume.ExecuteContext := (∅ : gset string).

(** A state of the collector in the middle of a collection. *)
Definition midState : collectionState :=
  {| cs_tasks := {| tasks := [taskC] |};
     taskStack := mkStack [nameC] |}.

End demo.


(** * Properties *)

(** ** Names and job dependencies *)
Section dependencies.
Import task config.
Context `{Syntax} `{Types}.

Lemma ParseNames_inl (names : list string) (ns : list Name) :
  ParseNames names = inl ns ↔ Forall2 (λ s n, ParseName s = inl n) names ns.
Proof.
  revert ns. induction names as [|s names IH]; intros ns; simpl.
  - split.
    + intros [= <-]. constructor.
    + by inversion 1.
  - destruct (ParseName s) as [n|err] eqn:Hs.
    + destruct (ParseNames names) as [ns'|err] eqn:Hns.
      * split.
        -- intros [= <-]. constructor; [done|]. by apply IH.
        -- inversion 1 as [|? n' ? ns'' Hn Hrest]; subst.
           apply IH in Hrest. congruence.
      * split; [done|].
        inversion 1 as [|? n' ? ns'' Hn Hrest]; subst.
        apply IH in Hrest. congruence.
    + split; [done|]. inversion 1; congruence.
Qed.

Lemma ParseNames_inr (names : list string) (err : error) :
  ParseNames names = inr err → ∃ s, s ∈ names ∧ ParseName s = inr err.
Proof.
  induction names as [|s names IH]; simpl; [done|].
  destruct (ParseName s) as [n|e] eqn:Hs.
  - destruct (ParseNames names) as [ns|e] eqn:Hns; [done|].
    intros [= <-]. destruct IH as (s' & Hin & Hs'); [done|].
    exists s'. split; [by right | done].
  - intros [= <-]. exists s. split; [by left | done].
Qed.

Lemma ParseNames_fails (names : list string) (s : string) (e : error) :
  s ∈ names → ParseName s = inr e → ∃ err, ParseNames names = inr err.
Proof.
  induction names as [|s' names IH]; [by inversion 1|].
  intros Hin Hs. simpl.
  destruct (ParseName s') as [n|e'] eqn:Hs'; [|by eexists].
  apply elem_of_cons in Hin as [->|Hin]; [congruence|].
  destruct (IH Hin Hs) as [err ->]. by eexists.
Qed.

(** C10.  When every entry of [Mounts], [Depends] and [Use] parses,
    [Dependencies] returns the mount Names, then the explicit
    dependencies, then the Name of the used image, and no error.  When
    some entry does not parse, it returns the empty list and the parse
    error of an entry. *)
Theorem JobConfig_Dependencies_order (c : JobConfig) :
  (∀ mnts deps use,
     Forall2 (λ s n, ParseName s = inl n) (Mounts c) mnts →
     Forall2 (λ s n, ParseName s = inl n)
       (Depends (JobConfig_Dependent c)) deps →
     ParseName (Use c) = inl use →
     JobConfig_Dependencies c = (mnts ++ deps ++ [use], None)) ∧
  (∀ s e,
     s ∈ Mounts c ++ Depends (JobConfig_Dependent c) ++ [Use c] →
     ParseName s = inr e →
     ∃ s' err,
       s' ∈ Mounts c ++ Depends (JobConfig_Dependent c) ++ [Use c] ∧
       ParseName s' = inr err ∧
       JobConfig_Dependencies c = ([], Some err)).
Proof.
  split.
  - intros mnts deps use Hm%ParseNames_inl Hd%ParseNames_inl Hu.
    unfold JobConfig_Dependencies. by rewrite Hd, Hm, Hu.
  - intros s e Hin Hs. unfold JobConfig_Dependencies.
    destruct (ParseNames (Depends _)) as [deps|err] eqn:Hd.
    + destruct (ParseNames (Mounts c)) as [mnts|err] eqn:Hm.
      * destruct (ParseName (Use c)) as [use|err] eqn:Hu.
        -- exfalso.
           rewrite !elem_of_app, list_elem_of_singleton in Hin.
           destruct Hin as [Hin|[Hin| ->]]; [| |congruence].
           ++ destruct (ParseNames_fails _ _ _ Hin Hs); congruence.
           ++ destruct (ParseNames_fails _ _ _ Hin Hs); congruence.
        -- exists (Use c), err. split_and!; [|done..].
           rewrite !elem_of_app, list_elem_of_singleton. auto.
      * apply ParseNames_inr in Hm as (s' & Hin' & Hs').
        exists s', err. split_and!; [|done..].
        rewrite !elem_of_app. auto.
    + apply ParseNames_inr in Hd as (s' & Hin' & Hs').
      exists s', err. split_and!; [|done..].
      rewrite !elem_of_app. auto.
Qed.

End dependencies.

(** ** Resolving a resource *)
Section resolve.
Import config.
Context `{Types}.





End resolve.

(** ** The task factory and the collector *)
Section collector.
Import task context types tasks.
Context `{Syntax} `{config.Types} `{Backend} `{!Packages}.

Implicit Types (options : RunOptions) (state : collectionState).
Implicit Types (T : TaskConfig) (fuel : nat).

(** C4, as the code has it.  [buildTaskConfig] hands an image, job, mount,
    alias, env or compose resource to the constructor of its kind and
    returns what the constructor returns, a TaskConfig or an error; a
    volume resource, like any other type, reaches the panic. *)
Theorem buildTaskConfig_dispatch (name : Name) (resource : config.Resource) :
  match resource with
  | config.ofImageConfig conf =>
      buildTaskConfig name resource = Returns (image_GetTaskConfig name conf)
  | config.ofJobConfig conf =>
      buildTaskConfig name resource = Returns (job_GetTaskConfig name conf)
  | config.ofMountConfig conf =>
      buildTaskConfig name resource = Returns (mount_GetTaskConfig name conf)
  | config.ofAliasConfig conf =>
      buildTaskConfig name resource = Returns (alias_GetTaskConfig name conf)
  | config.ofEnvConfig conf =>
      buildTaskConfig name resource = Returns (env_GetTaskConfig name conf)
  | config.ofComposeConfig conf =>
      buildTaskConfig name resource = Returns (compose_GetTaskConfig name conf)
  | config.ofVolumeConfig conf =>
      buildTaskConfig name resource
      = Panics "Unexpected config type *config.VolumeConfig"
  end ∧
  ((∃ msg, buildTaskConfig name resource = Panics msg)
   ↔ config.kindOf resource = config.volume).
Proof.
  destruct resource; simpl; (split; [done|]); split;
    solve [done | by intros [? ?] | by eexists].
Qed.

(** One iteration of the loop, read forwards. *)
Lemma collect_range_cons self options (s : string) (range : list string) state T :
  configFor (Config options) s = Some T →
  collect_range self options (s :: range) state =
    if Stack_Contains (taskStack state) (TaskConfig_Name T) then
      Returns (state,
        inr ("Invalid dependency cycle: " +:+
             String.concat ", " (Stack_Names (taskStack state))))
    else
      let options' :=
        RunOptions_with_Tasks options
          (map Name_Name (TaskConfig_Dependencies T)) in
      '(state1, res) ←
        self options'
          {| cs_tasks := cs_tasks state;
             taskStack := Stack_Push (taskStack state) (TaskConfig_Name T) |};
      match res with
      | inr err => Returns (state1, inr err)
      | inl _ =>
          collect_range self options' range
            {| cs_tasks := add (cs_tasks state1) T;
               taskStack := Stack_Pop (taskStack state1) |}
      end.
Proof.
  unfold configFor. intros Hfor. simpl.
  destruct (ParseName s) as [task|]; [|done].
  destruct (config.Resources _ !! _) as [resource|]; [|done].
  destruct (buildTaskConfig task resource) as [[T'|]| |]; simplify_eq.
  done.
Qed.

(** One successful iteration, read backwards. *)
Lemma collect_range_cons_inv self options (s : string) (range : list string)
    state state' (res : TaskCollection) :
  collect_range self options (s :: range) state = Returns (state', inl res) →
  ∃ T state1 res1,
    configFor (Config options) s = Some T ∧
    Stack_Contains (taskStack state) (TaskConfig_Name T) = false ∧
    self (RunOptions_with_Tasks options
            (map Name_Name (TaskConfig_Dependencies T)))
         {| cs_tasks := cs_tasks state;
            taskStack := Stack_Push (taskStack state) (TaskConfig_Name T) |}
      = Returns (state1, inl res1) ∧
    collect_range self
      (RunOptions_with_Tasks options
         (map Name_Name (TaskConfig_Dependencies T))) range
      {| cs_tasks := add (cs_tasks state1) T;
         taskStack := Stack_Pop (taskStack state1) |}
      = Returns (state', inl res).
Proof.
  intros Hc.
  destruct (configFor (Config options) s) as [T|] eqn:Hfor.
  - rewrite (collect_range_cons _ _ _ _ _ T Hfor) in Hc.
    destruct (Stack_Contains _ _) eqn:Hstack; [done|].
    simpl in Hc.
    destruct (self _ _) as [[state1 [res1|err]]| |] eqn:Hself;
      simpl in Hc; try done.
    by exists T, state1, res1.
  - exfalso. revert Hc Hfor. unfold configFor. simpl.
    destruct (ParseName s) as [task|]; [|done].
    destruct (config.Resources _ !! _) as [resource|]; [|done].
    by destruct (buildTaskConfig task resource) as [[T'|]| |].
Qed.

Lemma collects_nil (conf : config.Config) : collects conf [] [].
Proof. split; [by inversion 1 | by intros i T d ?]. Qed.

Lemma collects_cons (conf : config.Config) (s : string) (range : list string)
    T (new1 new2 : list TaskConfig) :
  configFor conf s = Some T →
  collects conf (map Name_Name (TaskConfig_Dependencies T)) new1 →
  collects conf range new2 →
  collects conf (s :: range) (new1 ++ [T] ++ new2).
Proof.
  intros Hfor [Hdeps Hfirst1] [Hrange Hfirst2]. split.
  - intros s' [->|Hin]%elem_of_cons.
    + exists (length new1), T. split; [|done]. by apply list_lookup_middle.
    + destruct (Hrange s' Hin) as (j & T' & Hj & Hfor').
      exists (length new1 + S j), T'. split; [|done].
      rewrite lookup_app_r by lia.
      by replace (length new1 + S j - length new1) with (S j) by lia.
  - intros i T0 d Hi Hd.
    apply lookup_app_Some in Hi as [Hi|[Hlen Hi]].
    + destruct (Hfirst1 i T0 d Hi Hd) as (j & T' & Hlt & Hj & Hfor').
      exists j, T'. split_and!; [done| |done]. by apply lookup_app_l_Some.
    + apply lookup_app_Some in Hi as [Hi|[Hlen' Hi]].
      * apply list_lookup_singleton_Some in Hi as [Hi0 <-].
        destruct (Hdeps (Name_Name d)) as (j & T' & Hj & Hfor').
        { apply list_elem_of_fmap. by exists d. }
        exists j, T'. split_and!; [|by apply lookup_app_l_Some|done].
        apply lookup_lt_Some in Hj. lia.
      * simpl in Hlen', Hi.
        destruct (Hfirst2 _ T0 d Hi Hd) as (j & T' & Hlt & Hj & Hfor').
        exists (length new1 + S j), T'. split_and!; [lia| |done].
        rewrite lookup_app_r by lia.
        by replace (length new1 + S j - length new1) with (S j) by lia.
Qed.

(** The loop appends what [collects] says when the recursive call does. *)
Lemma collect_range_collects self (conf : config.Config) :
  (∀ options state state' res,
     Config options = conf →
     self options state = Returns (state', inl res) →
     ∃ new, tasks (cs_tasks state') = tasks (cs_tasks state) ++ new ∧
            collects conf (Tasks options) new) →
  ∀ range options state state' res,
    Config options = conf →
    collect_range self options range state = Returns (state', inl res) →
    res = cs_tasks state' ∧
    ∃ new, tasks (cs_tasks state') = tasks (cs_tasks state) ++ new ∧
           collects conf range new.
Proof.
  intros Hself range.
  induction range as [|s range IH]; intros options state state' res Hconf Hc.
  - simpl in Hc. simplify_eq. split; [done|].
    exists []. split; [by rewrite app_nil_r | apply collects_nil].
  - apply collect_range_cons_inv in Hc
      as (T & state1 & res1 & Hfor & _ & Hrec & Hrest).
    apply Hself in Hrec as (new1 & Htasks1 & Hnew1); [|done].
    apply IH in Hrest as (-> & new2 & Htasks2 & Hnew2); [|done].
    split; [done|].
    exists (new1 ++ [T] ++ new2). split.
    + rewrite Htasks2. simpl. rewrite Htasks1. by rewrite <- !app_assoc.
    + simpl in Hnew1. rewrite Hconf in Hfor. by apply collects_cons.
Qed.

Lemma collect_collects fuel options state state' res :
  collect fuel options state = Returns (state', inl res) →
  res = cs_tasks state' ∧
  ∃ new, tasks (cs_tasks state') = tasks (cs_tasks state) ++ new ∧
         collects (Config options) (Tasks options) new.
Proof.
  revert options state state' res.
  induction fuel as [|fuel IH]; intros options state state' res Hc; [done|].
  simpl in Hc.
  eapply (collect_range_collects (collect fuel) (Config options)); [|done..].
  intros options' st st' r Hconf Hrec.
  apply IH in Hrec as (_ & new & Htasks & Hnew).
  exists new. by rewrite <- Hconf.
Qed.

Lemma Stack_Contains_Push (s : Stack) (pushed name : Name) :
  Stack_Contains (Stack_Push s pushed) name
  = Stack_Contains s name || bool_decide (pushed = name).
Proof.
  unfold Stack_Contains, Stack_Push, Equal. simpl.
  rewrite existsb_app. simpl. by rewrite orb_false_r.
Qed.

Lemma Stack_Pop_Push (s : Stack) (name : Name) :
  Stack_Pop (Stack_Push s name) = s.
Proof.
  destruct s as [l]. unfold Stack_Pop, Stack_Push. simpl.
  by rewrite removelast_last.
Qed.

Lemma buildTaskConfig_returns (name : Name) (resource : config.Resource) :
  buildTaskConfig name resource ≠ OutOfFuel.
Proof. by destruct resource. Qed.

(** A successful call leaves the stack as it found it. *)
Lemma collect_range_stack self :
  (∀ options state state' res,
     self options state = Returns (state', inl res) →
     taskStack state' = taskStack state) →
  ∀ range options state state' res,
    collect_range self options range state = Returns (state', inl res) →
    taskStack state' = taskStack state.
Proof.
  intros Hself range.
  induction range as [|s range IH]; intros options state state' res Hc.
  - simpl in Hc. by simplify_eq.
  - apply collect_range_cons_inv in Hc
      as (T & state1 & res1 & _ & _ & Hrec & Hrest).
    apply Hself in Hrec. apply IH in Hrest. simpl in *.
    by rewrite Hrest, Hrec, Stack_Pop_Push.
Qed.

Lemma collect_stack fuel options state state' res :
  collect fuel options state = Returns (state', inl res) →
  taskStack state' = taskStack state.
Proof.
  revert options state state' res.
  induction fuel as [|fuel IH]; intros options state state' res Hc; [done|].
  simpl in Hc. by eapply (collect_range_stack (collect fuel)).
Qed.

(** The stack holds distinct Names. *)
Lemma Stack_Contains_false (s : Stack) (name : Name) :
  Stack_Contains s name = false → name ∉ names s.
Proof.
  unfold Stack_Contains, Equal. intros Hex Hin.
  assert (existsb (λ item, bool_decide (item = name)) (names s) = true)
    as Htrue; [|congruence].
  apply existsb_exists. exists name.
  split; [by apply list_elem_of_In | by apply bool_decide_eq_true].
Qed.

Lemma stack_bound (U : gset Name) (l : list Name) :
  NoDup l → (∀ n, n ∈ l → n ∈ U) → length l ≤ size U.
Proof.
  intros Hnodup Hin.
  rewrite <- (size_list_to_set (C := gset Name) l) by done.
  apply subseteq_size. intros n Hn%elem_of_list_to_set. by apply Hin.
Qed.

(** The loop does not run out of fuel when the recursive call does not,
    on a stack one Name longer. *)
Lemma collect_range_returns self (conf : config.Config) (U : gset Name)
    (k : nat) :
  (∀ s T, configFor conf s = Some T → TaskConfig_Name T ∈ U) →
  (∀ options state,
     Config options = conf →
     NoDup (names (taskStack state)) →
     (∀ n, n ∈ names (taskStack state) → n ∈ U) →
     length (names (taskStack state)) = S k →
     self options state ≠ OutOfFuel) →
  (∀ options state state' res,
     self options state = Returns (state', inl res) →
     taskStack state' = taskStack state) →
  ∀ range options state,
    Config options = conf →
    NoDup (names (taskStack state)) →
    (∀ n, n ∈ names (taskStack state) → n ∈ U) →
    length (names (taskStack state)) = k →
    collect_range self options range state ≠ OutOfFuel.
Proof.
  intros HU Hself Hstack range.
  induction range as [|s range IH];
    intros options state Hconf Hnodup Hin Hlen; [done|].
  destruct (configFor conf s) as [T|] eqn:Hfor.
  - rewrite (collect_range_cons _ _ _ _ _ T) by by rewrite Hconf.
    destruct (Stack_Contains _ _) eqn:Hcontains; [done|].
    apply Stack_Contains_false in Hcontains.
    simpl.
    set (state1 := {| cs_tasks := cs_tasks state;
                      taskStack := Stack_Push (taskStack state)
                                     (TaskConfig_Name T) |}).
    assert (self (RunOptions_with_Tasks options
                    (map Name_Name (TaskConfig_Dependencies T))) state1
            ≠ OutOfFuel) as Hrec.
    { apply Hself; simpl; [done| | |].
      - apply NoDup_app. split_and!; [done| |apply NoDup_singleton].
        intros n Hn ->%list_elem_of_singleton. done.
      - intros n [Hn| ->%list_elem_of_singleton]%elem_of_app; eauto.
      - rewrite length_app. simpl. lia. }
    destruct (self _ state1) as [[state2 [res|err]]| |] eqn:Hself1;
      simpl; try done.
    apply Hstack in Hself1.
    assert (Stack_Pop (taskStack state2) = taskStack state) as Hpop.
    { rewrite Hself1. apply Stack_Pop_Push. }
    apply IH; cbn [taskStack cs_tasks]; rewrite ?Hpop; done.
  - revert Hfor. unfold configFor. simpl. rewrite Hconf.
    destruct (ParseName s) as [task|]; [|done].
    destruct (config.Resources _ !! _) as [resource|]; [|done].
    pose proof (buildTaskConfig_returns task resource).
    by destruct (buildTaskConfig task resource) as [[T'|]| |].
Qed.

(** The collector ends within a depth of one more than the number of
    Names that TaskConfigs can carry. *)
Lemma collect_returns fuel options state (U : gset Name) :
  (∀ s T, configFor (Config options) s = Some T → TaskConfig_Name T ∈ U) →
  NoDup (names (taskStack state)) →
  (∀ n, n ∈ names (taskStack state) → n ∈ U) →
  size U < fuel + length (names (taskStack state)) →
  collect fuel options state ≠ OutOfFuel.
Proof.
  intros HU. revert options state HU.
  induction fuel as [|fuel IH]; intros options state HU Hnodup Hin Hsize.
  - pose proof (stack_bound U _ Hnodup Hin). simpl in Hsize. lia.
  - simpl.
    apply (collect_range_returns (collect fuel) (Config options) U
             (length (names (taskStack state)))); try done.
    + intros options' state' Hconf Hnodup' Hin' Hlen.
      apply IH; [by rewrite Hconf|done..|lia].
    + intros options' state1 state2 res Hc. by eapply collect_stack.
Qed.

Lemma collectTasks_returns fuel options (U : gset Name) :
  (∀ s T, configFor (Config options) s = Some T → TaskConfig_Name T ∈ U) →
  size U < fuel →
  collectTasks fuel options ≠ OutOfFuel.
Proof.
  intros HU Hsize. unfold collectTasks.
  pose proof (collect_returns fuel options
    {| cs_tasks := newTaskCollection; taskStack := NewStack |} U HU) as Hc.
  destruct (collect fuel options _) as [[state res]| |]; simpl; try done.
  exfalso. apply Hc; simpl; [apply NoDup_nil_2|by intros n ?%elem_of_nil|lia|done].
Qed.

(** More fuel does not change a result. *)
Lemma collect_range_more_fuel self self' :
  (∀ options state r,
     self options state = r → r ≠ OutOfFuel → self' options state = r) →
  ∀ range options state r,
    collect_range self options range state = r → r ≠ OutOfFuel →
    collect_range self' options range state = r.
Proof.
  intros Hself range.
  induction range as [|s range IH]; intros options state r Hc Hr; [done|].
  simpl in *.
  destruct (ParseName s) as [task|]; [|done].
  destruct (config.Resources _ !! _) as [resource|]; [|done].
  destruct (buildTaskConfig task resource) as [[T|]| |]; simpl in *; try done.
  destruct (Stack_Contains _ _); [done|].
  destruct (self _ _) as [[state1 res1]| |] eqn:Hrec; simpl in Hc.
  - rewrite (Hself _ _ _ Hrec) by done. simpl.
    destruct res1; [|done]. by apply IH.
  - rewrite (Hself _ _ _ Hrec) by done. done.
  - by subst r.
Qed.

Lemma collect_more_fuel fuel (k : nat) options state r :
  collect fuel options state = r → r ≠ OutOfFuel →
  collect (fuel + k) options state = r.
Proof.
  revert options state r.
  induction fuel as [|fuel IH]; intros options state r Hc Hr.
  - simpl in Hc. by subst r.
  - simpl in *. by apply (collect_range_more_fuel (collect fuel)).
Qed.

(** C1.  When the collector accepts its input, so that no cycle was met,
    and the factories bound each dependency's TaskConfig to the Name it is
    listed under, every Name that a TaskConfig of the result depends on is
    the Name of a TaskConfig strictly earlier in the result. *)
Theorem collectTasks_dependency_first fuel options (c : TaskCollection) :
  collectTasks fuel options = Returns (inl c) →
  Forall (keeps_names (Config options)) (All c) →
  dependency_first (All c).
Proof.
  unfold collectTasks. intros Hc Hkeeps.
  destruct (collect fuel options _) as [[state' res]| |] eqn:Hcollect;
    simpl in Hc; simplify_eq.
  apply collect_collects in Hcollect as (-> & new & Htasks & _ & Hfirst).
  simpl in Htasks. unfold All in *. rewrite Htasks in *.
  intros i T d Hi Hd.
  destruct (Hfirst i T d Hi Hd) as (j & T' & Hlt & Hj & Hfor).
  exists j, T'. split_and!; [done..|].
  rewrite Forall_forall in Hkeeps.
  apply (Hkeeps T); [|done..].
  by eapply list_elem_of_lookup_2.
Qed.

End collector.

(** ** The execution engine *)
Section engine.
Import task context types tasks.
Context `{Syntax} `{config.Types} `{!config.Methods} `{Backend} `{!Packages}.

Implicit Types (T taskConfig : TaskConfig) (t : Task) (range : list TaskConfig).
Implicit Types (w : World) (ctx : ExecuteContext) (events : list Event).

Lemma reversed_loop_rev (l : list Task) (n : nat) (acc : list Task) :
  n ≤ length l → reversed_loop l n acc = acc ++ rev (take n l).
Proof.
  revert acc. induction n as [|n IH]; intros acc Hn; simpl.
  - by rewrite app_nil_r.
  - destruct (lookup_lt_is_Some_2 l n) as [t Ht]; [lia|].
    rewrite Ht, IH by lia.
    rewrite (take_S_r l n t Ht), rev_app_distr. simpl.
    by rewrite <- app_assoc.
Qed.

Lemma reversed_rev (l : list Task) : reversed l = rev l.
Proof.
  unfold reversed. rewrite reversed_loop_rev by done.
  by rewrite firstn_all.
Qed.

Lemma runsOf_app events1 events2 :
  runsOf (events1 ++ events2) = runsOf events1 ++ runsOf events2.
Proof.
  induction events1 as [|[] events1 IH]; simpl; by rewrite ?IH.
Qed.

Lemma stopsOf_app events1 events2 :
  stopsOf (events1 ++ events2) = stopsOf events1 ++ stopsOf events2.
Proof.
  induction events1 as [|[] events1 IH]; simpl; by rewrite ?IH.
Qed.

Lemma ranOf_app events1 events2 :
  ranOf (events1 ++ events2) = ranOf events1 ++ ranOf events2.
Proof.
  induction events1 as [|[] events1 IH]; simpl; by rewrite ?IH.
Qed.

(** Opens one iteration of the loop: the resolution, the run, the result
    of the remaining iterations. *)
Ltac iteration IH :=
  let m := fresh "m" in
  simpl;
  destruct (config.Resource_Resolve _ _) as [?resource [?err|]] eqn:?Hresolve;
  simpl;
  [ | destruct (Task_Run _ _ _ _) as [[?w ?ctx] [m [?err|]]] eqn:?Hrun;
      simpl;
      [ | destruct m;
          match goal with
          | |- context [executeTasks_range ?r ?w ?c ?s] =>
              try specialize (IH w c s);
              destruct (executeTasks_range r w c s)
                as [[[[?w ?ctx] ?started] ?rest] ?err] eqn:?Hrest
          end; simpl in * ] ].

(** What the loop returns as [startedTasks] are the tasks it ran, after
    those started before; it stops no task. *)
Lemma executeTasks_range_started range w ctx (started : list Task) :
  let r := executeTasks_range range w ctx started in
  r.1.1.2 = started ++ runsOf r.1.2 ∧ stopsOf r.1.2 = [].
Proof.
  revert w ctx started.
  induction range as [|taskConfig range IH]; intros w ctx started.
  - simpl. by rewrite app_nil_r.
  - iteration IH.
    + by rewrite app_nil_r.
    + by destruct (bool_decide _).
    + destruct IH as [-> Hstop]. rewrite <- app_assoc.
      by destruct (bool_decide _).
    + destruct IH as [-> Hstop]. rewrite <- app_assoc.
      by destruct (bool_decide _).
Qed.

(** The loop runs the tasks of a prefix of its TaskConfigs, each built
    from its TaskConfig, and all of them when it returns no error. *)
Lemma executeTasks_range_ran range w ctx (started : list Task) :
  let r := executeTasks_range range w ctx started in
  Forall instantiated r.1.2 ∧
  ∃ rest, range = ranOf r.1.2 ++ rest ∧ (r.2 = None → rest = []).
Proof.
  revert w ctx started.
  induction range as [|taskConfig range IH]; intros w ctx started.
  - simpl. split; [done|]. by exists [].
  - iteration IH.
    + split; [done|]. by exists (taskConfig :: range).
    + destruct (bool_decide _); simpl;
        (split; [by repeat (apply Forall_cons_2; [simpl; by eauto|])|]);
        (exists range; split; [done|intros; discriminate]).
    + destruct IH as [Hinst (rest' & -> & Hnone)].
      destruct (bool_decide _); simpl;
        (split; [by repeat (apply Forall_cons_2; [simpl; by eauto|])|]);
        by exists rest'.
    + destruct IH as [Hinst (rest' & -> & Hnone)].
      destruct (bool_decide _); simpl;
        (split; [by repeat (apply Forall_cons_2; [simpl; by eauto|])|]);
        by exists rest'.
Qed.

Lemma stopTasks_stops (l : list Task) w ctx :
  stopsOf (stopTasks l w ctx).2 = l ∧ runsOf (stopTasks l w ctx).2 = [] ∧
  ranOf (stopTasks l w ctx).2 = [].
Proof.
  revert w ctx. induction l as [|t l IH]; intros w ctx; [done|].
  simpl. destruct (Task_Stop t w ctx) as [[w1 ctx1] err].
  specialize (IH w1 ctx1).
  destruct (stopTasks l w1 ctx1) as [[w2 ctx2] rest]. simpl in *.
  destruct IH as (IH1 & IH2 & IH3).
  destruct err; simpl; by rewrite IH1, IH2, IH3.
Qed.

Lemma hasModifiedDeps_anyModified ctx (deps : list Name) :
  hasModifiedDeps ctx deps = anyModified (modified ctx) deps.
Proof.
  induction deps as [|dep deps IH]; [done|]. simpl. unfold IsModified.
  by destruct (bool_decide _).
Qed.

Lemma observes_app_l R (M : gset Name) events1 events2 :
  ranOf events1 = [] → observes R M events2 → observes R M (events1 ++ events2).
Proof. induction events1 as [|[] events1 IH]; simpl; by auto. Qed.

(** The loop's events agree with the modified set of its context. *)
Lemma executeTasks_range_observes R range w ctx (started : list Task) :
  Reflexive R → Forall (run_frames R) range →
  observes R (modified ctx) (executeTasks_range range w ctx started).1.2.
Proof.
  intros HR. revert w ctx started.
  induction range as [|taskConfig range IH]; intros w ctx started Hframes;
    [done|].
  apply Forall_cons in Hframes as [Hframe Hframes].
  specialize (λ w ctx started, IH w ctx started Hframes).
  iteration IH; [done|..].
  all: pose proof (Hframe resource w
         (Resources_Add ctx (Resource (TaskConfig_Name taskConfig)) resource)
         (hasModifiedDeps
            (Resources_Add ctx (Resource (TaskConfig_Name taskConfig)) resource)
            (TaskConfig_Dependencies taskConfig))) as HM.
  all: rewrite Hrun in HM; simpl in HM.
  all: destruct (bool_decide _); simpl;
    (split; [by rewrite hasModifiedDeps_anyModified|]);
    by eexists.
Qed.

(** A mark directly follows the run it reports. *)
Lemma executeTasks_range_marks range w ctx (started : list Task) prev :
  (∀ n, prev ≠ Some (CallSetModified n)) →
  marks_follow prev (executeTasks_range range w ctx started).1.2.
Proof.
  revert w ctx started prev.
  induction range as [|taskConfig range IH]; intros w ctx started prev Hprev;
    [done|].
  iteration IH; [done|..].
  - by destruct (bool_decide _).
  - specialize (IH (Some (Log Debug "Complete"))). simpl in IH.
    destruct (bool_decide _); simpl; split_and!; eauto.
  - specialize (IH (Some (Log Debug "Complete"))). simpl in IH.
    destruct (bool_decide _); simpl; split_and!; eauto.
Qed.

(** When runs leave the modified set alone, the loop ends with the set
    it started with and the Names of the tasks that reported a change. *)
Lemma executeTasks_range_modified range w ctx (started : list Task) :
  Forall (run_frames eq) range →
  let r := executeTasks_range range w ctx started in
  modified r.1.1.1.2 = modified ctx ∪ modifiedBy r.1.2.
Proof.
  revert w ctx started.
  induction range as [|taskConfig range IH]; intros w ctx started Hframes.
  { simpl. set_solver. }
  apply Forall_cons in Hframes as [Hframe Hframes].
  specialize (λ w ctx started, IH w ctx started Hframes).
  iteration IH.
  { set_solver. }
  all: pose proof (Hframe resource w
         (Resources_Add ctx (Resource (TaskConfig_Name taskConfig)) resource)
         (hasModifiedDeps
            (Resources_Add ctx (Resource (TaskConfig_Name taskConfig)) resource)
            (TaskConfig_Dependencies taskConfig))) as HM.
  all: rewrite Hrun in HM; simpl in HM.
  all: destruct (bool_decide _); simpl.
  1,2: destruct m; set_solver.
  all: rewrite IH, <- HM; set_solver.
Qed.

(** X9.  The loop over [range1 ++ range2] is the loop over [range1] and,
    when that returned no error, the loop over [range2] from where it
    ended: the states between two iterations are the final states of the
    prefixes, and after an error nothing of [range2] is touched. *)
Lemma executeTasks_range_app range1 range2 w ctx (started : list Task) :
  executeTasks_range (range1 ++ range2) w ctx started =
    let '(w1, ctx1, started1, events1, err1) :=
      executeTasks_range range1 w ctx started in
    if err1 is Some _ then (w1, ctx1, started1, events1, err1) else
    let '(w2, ctx2, started2, events2, err2) :=
      executeTasks_range range2 w1 ctx1 started1 in
    (w2, ctx2, started2, events1 ++ events2, err2).
Proof.
  revert w ctx started.
  induction range1 as [|taskConfig range1 IH]; intros w ctx started.
  - simpl. by destruct (executeTasks_range range2 w ctx started)
      as [[[[w2 ctx2] started2] events2] err2].
  - simpl.
    destruct (config.Resource_Resolve _ _) as [resource [err|]]; [done|].
    destruct (Task_Run _ _ _ _) as [[w0 ctx0] [m [err|]]]; [done|].
    destruct m; rewrite IH.
    + destruct (executeTasks_range range1 _ _ _)
        as [[[[w1 ctx1] started1] events1] [err1|]]; [done|].
      destruct (executeTasks_range range2 _ _ _)
        as [[[[w2 ctx2] started2] events2] err2].
      simpl. by rewrite <- !app_assoc.
    + destruct (executeTasks_range range1 _ _ _)
        as [[[[w1 ctx1] started1] events1] [err1|]]; [done|].
      destruct (executeTasks_range range2 _ _ _)
        as [[[[w2 ctx2] started2] events2] err2].
      simpl. by rewrite <- !app_assoc.
Qed.


(** Reading [observes] at an event in the middle of a trace. *)
Lemma observes_mono (M : gset Name) events1 events2 :
  observes (⊆) M (events1 ++ events2) →
  ∃ M', M ⊆ M' ∧ observes (⊆) M' events2.
Proof.
  revert M. induction events1 as [|e events1 IH]; intros M Hobs.
  - by exists M.
  - destruct e as [| T t d m err | |]; simpl in Hobs; try by apply IH.
    destruct Hobs as (_ & M1 & HM1 & Hobs).
    apply IH in Hobs as (M' & HM' & Hobs).
    exists M'. split; [|done].
    destruct m, err; set_solver.
Qed.

Lemma observes_exact (M : gset Name) events1 events2 :
  observes eq M (events1 ++ events2) →
  observes eq (M ∪ modifiedBy events1) events2.
Proof.
  revert M. induction events1 as [|e events1 IH]; intros M Hobs.
  - simpl. by replace (M ∪ ∅) with M by set_solver.
  - destruct e as [| T t d m err | |]; simpl in Hobs; try by apply IH.
    destruct Hobs as (_ & M1 & <- & Hobs).
    apply IH in Hobs. simpl.
    destruct m, err; try done.
    by replace (M ∪ ({[Task_Name t]} ∪ modifiedBy events1))
      with ({[Task_Name t]} ∪ M ∪ modifiedBy events1) by set_solver.
Qed.

Lemma elem_of_modifiedBy (n : Name) events :
  n ∈ modifiedBy events →
  ∃ T t d, CallRun T t d true None ∈ events ∧ Task_Name t = n.
Proof.
  induction events as [|e events IH]; simpl; [set_solver|].
  intros Hn.
  assert (n ∈ modifiedBy events →
          ∃ T t d, CallRun T t d true None ∈ e :: events ∧ Task_Name t = n)
    as Hrest.
  { intros (T & t & d & Hin & Hname)%IH. exists T, t, d.
    split; [by right | done]. }
  destruct e as [| T t d [] [] | |]; try by apply Hrest.
  apply elem_of_union in Hn as [Hn%elem_of_singleton|Hn]; [|by apply Hrest].
  exists T, t, d. split; [by left | done].
Qed.

Lemma anyModified_true (M : gset Name) (deps : list Name) (d : Name) :
  d ∈ deps → d ∈ M → anyModified M deps = true.
Proof.
  intros Hd HM. unfold anyModified. apply existsb_exists.
  exists d. split; [by apply list_elem_of_In | by apply bool_decide_eq_true].
Qed.

Lemma anyModified_false (M : gset Name) (deps : list Name) :
  (∀ d, d ∈ deps → d ∉ M) → anyModified M deps = false.
Proof.
  intros Hd. unfold anyModified.
  destruct (existsb _ deps) eqn:Hex; [|done].
  apply existsb_exists in Hex as (d & Hin%list_elem_of_In & HM).
  apply bool_decide_eq_true in HM. by destruct (Hd d Hin).
Qed.

Lemma marks_follow_split prev events1 (n : Name) events2 :
  marks_follow prev (events1 ++ CallSetModified n :: events2) →
  ∃ T t d, last (option_list prev ++ events1) = Some (CallRun T t d true None)
           ∧ Task_Name t = n.
Proof.
  revert prev. induction events1 as [|e events1 IH]; intros prev; simpl.
  - intros [(T & t & d & -> & Hname) _]. by exists T, t, d.
  - intros [_ Hrest]. apply IH in Hrest as (T & t & d & Hlast & Hname).
    exists T, t, d. split; [|done].
    by destruct prev.
Qed.

Lemma observes_no_runs R (M : gset Name) events :
  ranOf events = [] → observes R M events.
Proof. revert M. induction events as [|[] events IH]; simpl; by auto. Qed.

Lemma observes_app_r R (M : gset Name) events1 events2 :
  observes R M events1 → ranOf events2 = [] → observes R M (events1 ++ events2).
Proof.
  intros Hobs Hran. revert M Hobs.
  induction events1 as [|e events1 IH]; intros M Hobs.
  - by apply observes_no_runs.
  - destruct e as [| T t d m err | |]; simpl in *; try by apply IH.
    destruct Hobs as (Hd & M' & HM & Hobs). split; [done|].
    exists M'. split; [done|]. by apply IH.
Qed.

Lemma marks_follow_app prev events1 events2 :
  marks_follow prev events1 →
  marks_follow (last (option_list prev ++ events1)) events2 →
  marks_follow prev (events1 ++ events2).
Proof.
  revert prev. induction events1 as [|e events1 IH]; intros prev; simpl.
  - intros _. rewrite app_nil_r. by destruct prev.
  - intros [He Hrest] Hlast. split; [done|]. apply IH; [done|].
    by destruct prev.
Qed.

Lemma stopTasks_marks (l : list Task) w ctx prev :
  (∀ n, prev ≠ Some (CallSetModified n)) →
  marks_follow prev (stopTasks l w ctx).2.
Proof.
  revert w ctx prev. induction l as [|t l IH]; intros w ctx prev Hprev; [done|].
  simpl. destruct (Task_Stop t w ctx) as [[w1 ctx1] err].
  pose proof (IH w1 ctx1) as IH'.
  destruct (stopTasks l w1 ctx1) as [[w2 ctx2] rest]. simpl in *.
  destruct err; simpl; split_and!; try done; by apply IH'.
Qed.

Lemma elem_of_ranOf T t d m err events :
  CallRun T t d m err ∈ events → T ∈ ranOf events.
Proof.
  induction events as [|e events IH]; [by inversion 1|].
  intros [<-|Hin]%elem_of_cons; [by left|].
  destruct e; simpl; auto. right. auto.
Qed.

(** The events of [executeTasks]: those of the loop, then those of the
    deferred function. *)
Lemma executeTasks_events w ctx (c : TaskCollection) :
  (executeTasks w ctx c).1.2 =
    (Log Debug "executing tasks" :: (executeTasks_range (All c) w ctx []).1.2)
    ++ Log Debug "stopping tasks" ::
       (stopTasks (reversed (executeTasks_range (All c) w ctx []).1.1.2)
          (executeTasks_range (All c) w ctx []).1.1.1.1
          (executeTasks_range (All c) w ctx []).1.1.1.2).2 ∧
  (executeTasks w ctx c).2 = (executeTasks_range (All c) w ctx []).2.
Proof.
  unfold executeTasks.
  destruct (executeTasks_range (All c) w ctx [])
    as [[[[w1 ctx1] started] events] err]. simpl.
  by destruct (stopTasks (reversed started) w1 ctx1) as [[w2 ctx2] stopped].
Qed.

(** C2.  In every run of [executeTasks], with or without an error, all
    calls of [Stop] come after all calls of [Run], and the tasks stopped
    are the started tasks, each once, in the reverse of the order in which
    they were started; the tasks run belong to a prefix of the
    collection, so a TaskConfig after a failure is neither run nor
    stopped.  For the tasks [A; B; C] where the run of [B] fails, the calls
    are: run [A], run [B], stop [B], stop [A], and the error names [B]. *)
Theorem executeTasks_stops_started w ctx (c : TaskCollection) :
  let started := (executeTasks_range (All c) w ctx []).1.1.2 in
  let events := (executeTasks w ctx c).1.2 in
  let err := (executeTasks w ctx c).2 in
  (∃ running stopping,
     events = running ++ stopping ∧
     runsOf running = started ∧ stopsOf running = [] ∧
     runsOf stopping = [] ∧ stopsOf stopping = rev started ∧
     Forall instantiated running ∧
     ∃ rest, All c = ranOf running ++ rest ∧ (err = None → rest = [])) ∧
  (∀ A B C,
     All c = [A; B; C] →
     (∀ env, (config.Resource_Resolve (TaskConfig_Resource A) env).2 = None) →
     (∀ env, (config.Resource_Resolve (TaskConfig_Resource B) env).2 = None) →
     (∀ resource w ctx d,
        (Task_Run (TaskConfig_Task A resource) w ctx d).2.2 = None) →
     (∀ resource w ctx d,
        (Task_Run (TaskConfig_Task B resource) w ctx d).2.2 ≠ None) →
     ∃ tA tB dA dB mA mB cause sA sB,
       callsOf events =
         [CallRun A tA dA mA None; CallRun B tB dB mB (Some cause);
          CallStop tB sB; CallStop tA sA] ∧
       err = Some ("failed to execute task " +:+ QuoteName (Task_Name tB)
                   +:+ ": " +:+ cause)).
Proof.
  intros started events err.
  destruct (executeTasks_events w ctx c) as [Hevents Herr].
  split.
  - pose proof (executeTasks_range_started (All c) w ctx []) as [Hst Hnostop].
    pose proof (executeTasks_range_ran (All c) w ctx []) as [Hinst Hran].
    simpl in Hst, Hnostop, Hinst, Hran.
    eexists _, _. split; [exact Hevents|]. fold started.
    pose proof (stopTasks_stops (reversed started)
      (executeTasks_range (All c) w ctx []).1.1.1.1
      (executeTasks_range (All c) w ctx []).1.1.1.2) as (Hs1 & Hs2 & Hs3).
    split_and!; simpl.
    + symmetry. exact Hst.
    + done.
    + done.
    + by rewrite Hs1, reversed_rev.
    + by constructor.
    + subst err. by rewrite Herr.
  - intros A B C HAll HrA HrB HokA HfailB.
    subst events err. unfold executeTasks. rewrite HAll. simpl.
    specialize (HrA (Env ctx)).
    destruct (config.Resource_Resolve (TaskConfig_Resource A) (Env ctx))
      as [rA eA]. simpl in HrA. subst eA.
    match goal with |- context [Task_Run ?t ?w ?c ?d] =>
      specialize (HokA rA w c d);
      destruct (Task_Run t w c d) as [[w1 ctx1] [mA eA]] end.
    simpl in HokA. subst eA.
    assert (∃ ctx1', (if mA
              then (SetModified ctx1 (Task_Name (TaskConfig_Task A rA)),
                    [CallSetModified (Task_Name (TaskConfig_Task A rA))])
              else (ctx1, [])) = (ctx1', if mA then
                    [CallSetModified (Task_Name (TaskConfig_Task A rA))]
                    else [])) as [ctx1' ->].
    { destruct mA; by eexists. }
    specialize (HrB (Env ctx1')).
    destruct (config.Resource_Resolve (TaskConfig_Resource B) (Env ctx1'))
      as [rB eB]. simpl in HrB. subst eB.
    match goal with |- context [Task_Run ?t ?w ?c ?d] =>
      specialize (HfailB rB w c d);
      destruct (Task_Run t w c d) as [[w2 ctx2] [mB [cause|]]] end;
      [|done].
    simpl. unfold reversed. simpl.
    destruct (Task_Stop (TaskConfig_Task B rB) w2 ctx2) as [[w3 ctx3] sB].
    destruct (Task_Stop (TaskConfig_Task A rA) w3 ctx3) as [[w4 ctx4] sA].
    simpl. eexists _, _, _, _, mA, mB, cause, sA, sB.
    split; [|done].
    destruct (bool_decide (Action (TaskConfig_Name A) ≠ Remove)),
      (bool_decide (Action (TaskConfig_Name B) ≠ Remove)), mA, sB, sA;
      reflexivity.
Qed.

Lemma executeTasks_observes R w ctx (c : TaskCollection) :
  Reflexive R → Forall (run_frames R) (All c) →
  observes R (modified ctx) (executeTasks w ctx c).1.2.
Proof.
  intros HR Hframes.
  destruct (executeTasks_events w ctx c) as [-> _].
  apply observes_app_r.
  - by apply (executeTasks_range_observes R).
  - simpl. apply stopTasks_stops.
Qed.

(** C5.  If the run of a task [X] returns [modified = true] and no error,
    every later run of a TaskConfig [Y] whose dependencies contain the
    Name of [X] receives [depsModified = true], provided the runs in
    between only add to the modified set.  If no dependency of [Y] was
    marked when the engine started and every earlier run of a task named
    by a dependency of [Y] returned [modified = false], [Y] receives
    [depsModified = false], provided the runs themselves leave the
    modified set as it is. *)
Theorem modified_propagates w ctx (c : TaskCollection) :
  let events := (executeTasks w ctx c).1.2 in
  (Forall (run_frames (⊆)) (All c) →
   ∀ before X tX dX between Y tY dY mY eY after,
     events = before ++ CallRun X tX dX true None
                :: between ++ CallRun Y tY dY mY eY :: after →
     Task_Name tX ∈ TaskConfig_Dependencies Y →
     dY = true) ∧
  (Forall (run_frames eq) (All c) →
   ∀ before Y tY dY mY eY after,
     events = before ++ CallRun Y tY dY mY eY :: after →
     (∀ d, d ∈ TaskConfig_Dependencies Y → d ∉ modified ctx) →
     (∀ X tX dX mX eX,
        CallRun X tX dX mX eX ∈ before →
        Task_Name tX ∈ TaskConfig_Dependencies Y → mX = false) →
     dY = false).
Proof.
  intros events. split.
  - intros Hframes before X tX dX between Y tY dY mY eY after Hev Hdep.
    pose proof (executeTasks_observes (⊆) w ctx c _ Hframes) as Hobs.
    fold events in Hobs. rewrite Hev in Hobs.
    apply observes_mono in Hobs as (M1 & _ & Hobs). simpl in Hobs.
    destruct Hobs as (_ & M2 & HM2 & Hobs).
    apply observes_mono in Hobs as (M3 & HM3 & Hobs). simpl in Hobs.
    destruct Hobs as (-> & _).
    apply (anyModified_true _ _ (Task_Name tX)); [done|]. set_solver.
  - intros Hframes before Y tY dY mY eY after Hev Hclean Hunmodified.
    pose proof (executeTasks_observes eq w ctx c _ Hframes) as Hobs.
    fold events in Hobs. rewrite Hev in Hobs.
    apply observes_exact in Hobs. simpl in Hobs.
    destruct Hobs as (-> & _).
    apply anyModified_false. intros d Hd [HM|HM]%elem_of_union.
    + by apply (Hclean d).
    + apply elem_of_modifiedBy in HM as (X & tX & dX & Hin & Hname).
      subst d. by specialize (Hunmodified X tX dX true None Hin Hd).
Qed.

(** C9.  In the events of [executeTasks] every mark of a Name comes
    directly after a run, of a task with that Name, that returned
    [modified = true] and no error.  At every point between two
    iterations, the state the loop reaches after a prefix [range1] of the
    collection, a Name in the modified set was there at the start or is
    the Name of a task of [range1] whose run returned [modified = true] and
    no error, provided the runs themselves leave the modified set as it
    is. *)
Theorem marks_only_after_modified_run w ctx (c : TaskCollection) :
  let events := (executeTasks w ctx c).1.2 in
  (∀ before n after,
     events = before ++ CallSetModified n :: after →
     ∃ before' T t d,
       before = before' ++ [CallRun T t d true None] ∧ Task_Name t = n) ∧
  (∀ range1 range2,
     All c = range1 ++ range2 →
     Forall (run_frames eq) (All c) →
     let r := executeTasks_range range1 w ctx [] in
     ∀ n, n ∈ modified r.1.1.1.2 →
       n ∈ modified ctx ∨
       ∃ T t d, CallRun T t d true None ∈ r.1.2 ∧ Task_Name t = n ∧
                T ∈ range1).
Proof.
  intros events. split.
  - intros before n after Hev.
    assert (marks_follow None events) as Hmarks.
    { subst events. destruct (executeTasks_events w ctx c) as [-> _].
      apply marks_follow_app.
      - simpl. split; [done|]. by apply executeTasks_range_marks.
      - simpl. split; [done|]. by apply stopTasks_marks. }
    rewrite Hev in Hmarks.
    apply marks_follow_split in Hmarks as (T & t & d & Hlast & Hname).
    simpl in Hlast. apply last_Some in Hlast as [before' ->].
    by exists before', T, t, d.
  - intros range1 range2 HAll Hframes r n Hn.
    rewrite HAll in Hframes. apply Forall_app in Hframes as [Hframes _].
    pose proof (executeTasks_range_modified range1 w ctx [] Hframes) as HM.
    fold r in HM. rewrite HM in Hn.
    apply elem_of_union in Hn as [Hn|Hn]; [by left|right].
    apply elem_of_modifiedBy in Hn as (T & t & d & Hin & Hname).
    exists T, t, d. split_and!; [done..|].
    pose proof (executeTasks_range_ran range1 w ctx [])
      as (_ & rest & Hrange & _).
    fold r in Hrange. rewrite Hrange. apply elem_of_app. left.
    by eapply elem_of_ranOf.
Qed.

Lemma executeTasks_runs_all w ctx (c : TaskCollection) :
  (executeTasks w ctx c).2 = None → ranOf (executeTasks w ctx c).1.2 = All c.
Proof.
  destruct (executeTasks_events w ctx c) as [-> ->]. intros Herr.
  pose proof (executeTasks_range_ran (All c) w ctx [])
    as (_ & rest & Hrange & Hnone).
  rewrite ranOf_app. simpl.
  destruct (stopTasks_stops (reversed (executeTasks_range (All c) w ctx []).1.1.2)
    (executeTasks_range (All c) w ctx []).1.1.1.1
    (executeTasks_range (All c) w ctx []).1.1.1.2) as (_ & _ & ->).
  rewrite (Hnone Herr), !app_nil_r in *. done.
Qed.

End engine.

(** ** Two dependency graphs *)
Section scenarios.
Import task context types tasks.
Context `{Syntax} `{config.Types} `{!config.Methods} `{Backend} `{!Packages}.

#[local] Arguments collect_range : simpl never.
#[local] Arguments collect : simpl never.
#[local] Arguments Stack_Contains : simpl never.
#[local] Arguments Stack_Push : simpl never.
#[local] Arguments Stack_Pop : simpl never.

Lemma Stack_Contains_NewStack (name : Name) :
  Stack_Contains NewStack name = false.
Proof. done. Qed.

Lemma collect_range_nil self (options : RunOptions) (state : collectionState) :
  collect_range self options [] state = Returns (state, inl (cs_tasks state)).
Proof. done. Qed.

Lemma collect_S fuel (options : RunOptions) (state : collectionState) :
  collect (S fuel) options state
  = collect_range (collect fuel) options (Tasks options) state.
Proof. done. Qed.

Lemma collect_range_step self (options : RunOptions) (conf : config.Config)
    (s : string) (range : list string) (state : collectionState)
    (T : TaskConfig) :
  Config options = conf →
  configFor conf s = Some T →
  collect_range self options (s :: range) state =
    if Stack_Contains (taskStack state) (TaskConfig_Name T) then
      Returns (state,
        inr ("Invalid dependency cycle: " +:+
             String.concat ", " (Stack_Names (taskStack state))))
    else
      let options' :=
        RunOptions_with_Tasks options
          (map Name_Name (TaskConfig_Dependencies T)) in
      '(state1, res) ←
        self options'
          {| cs_tasks := cs_tasks state;
             taskStack := Stack_Push (taskStack state) (TaskConfig_Name T) |};
      match res with
      | inr err => Returns (state1, inr err)
      | inl _ =>
          collect_range self options' range
            {| cs_tasks := add (cs_tasks state1) T;
               taskStack := Stack_Pop (taskStack state1) |}
      end.
Proof. intros <-. apply collect_range_cons. Qed.

(** Enters the iteration for a string whose TaskConfig is known and is
    not on the stack. *)
Ltac enter conf HT :=
  erewrite (collect_range_step _ _ conf); [|done|exact HT];
  cbn [taskStack cs_tasks];
  rewrite ?Stack_Contains_Push, ?Stack_Contains_NewStack,
    ?bool_decide_eq_false_2 by done;
  simpl.

(** C6.  For a diamond, [A] depending on [b] and [c] whose TaskConfigs [B]
    and [C] both depend on [d] with TaskConfig [D], collecting the request
    for [A] returns the sequence [D; B; D; C; A]: the shared dependency is
    collected once for each branch, and an execution without error runs
    it twice. *)
Theorem diamond_collects_shared_twice (options : RunOptions) (sA : string)
    (A B C D : TaskConfig) (b c d : Name) (fuel : nat) :
  Tasks options = [sA] →
  configFor (Config options) sA = Some A →
  TaskConfig_Dependencies A = [b; c] →
  configFor (Config options) (Name_Name b) = Some B →
  TaskConfig_Dependencies B = [d] →
  configFor (Config options) (Name_Name c) = Some C →
  TaskConfig_Dependencies C = [d] →
  configFor (Config options) (Name_Name d) = Some D →
  TaskConfig_Dependencies D = [] →
  NoDup [TaskConfig_Name A; TaskConfig_Name B; TaskConfig_Name D] →
  NoDup [TaskConfig_Name A; TaskConfig_Name C; TaskConfig_Name D] →
  4 ≤ fuel →
  collectTasks fuel options = Returns (inl {| tasks := [D; B; D; C; A] |}) ∧
  ∀ w ctx,
    (executeTasks w ctx {| tasks := [D; B; D; C; A] |}).2 = None →
    ranOf (executeTasks w ctx {| tasks := [D; B; D; C; A] |}).1.2
    = [D; B; D; C; A].
Proof.
  intros HTasks HA HdA HB HdB HC HdC HD HdD HABD HACD Hfuel.
  rewrite !NoDup_cons, !not_elem_of_cons in HABD, HACD.
  destruct HABD as ((HAB & HAD & _) & (HBD & _) & _).
  destruct HACD as ((HAC & _ & _) & (HCD & _) & _).
  split.
  - do 4 (destruct fuel as [|fuel]; [lia|]).
    unfold collectTasks. rewrite collect_S, HTasks.
    enter (Config options) HA. rewrite HdA, collect_S. simpl.
    enter (Config options) HB. rewrite HdB, collect_S. simpl.
    enter (Config options) HD. rewrite HdD, collect_S. simpl.
    rewrite ?collect_range_nil. simpl. rewrite ?Stack_Pop_Push.
    enter (Config options) HC. rewrite HdC, collect_S. simpl.
    enter (Config options) HD. rewrite HdD, collect_S. simpl.
    rewrite ?collect_range_nil. simpl. rewrite ?Stack_Pop_Push.
    by rewrite ?collect_range_nil.
  - intros w ctx Herr. by apply executeTasks_runs_all in Herr.
Qed.

(** C7.  When [A] depends on [b], whose TaskConfig [B] depends on [a], and
    the TaskConfig built for [a] has the Name of [A], the request for [A]
    is rejected with the cyclic-dependency error whose path is the Name of
    [A] then the Name of [B], each once; [Run] returns this error with no
    collection built, no task run and the world untouched. *)
Theorem cycle_is_rejected (options : RunOptions) (sA : string)
    (A B A' : TaskConfig) (a b : Name) (fuel : nat) (w : World) :
  Tasks options = [sA] →
  configFor (Config options) sA = Some A →
  TaskConfig_Dependencies A = [b] →
  configFor (Config options) (Name_Name b) = Some B →
  TaskConfig_Dependencies B = [a] →
  configFor (Config options) (Name_Name a) = Some A' →
  TaskConfig_Name A' = TaskConfig_Name A →
  TaskConfig_Name A ≠ TaskConfig_Name B →
  (NewExecEnvFromConfig
     (config.ExecID (config.Meta (Config options)))
     (config.Project (config.Meta (Config options)))
     (config.Config_WorkingDir (Config options))).2 = None →
  3 ≤ fuel →
  let err :=
    "Invalid dependency cycle: " +:+
    String.concat ", "
      [Name_Name (TaskConfig_Name A); Name_Name (TaskConfig_Name B)] in
  collectTasks fuel options = Returns (inr err) ∧
  Run fuel options w = Returns (w, [], Some err).
Proof.
  intros HTasks HA HdA HB HdB HA' Hname HAB Henv Hfuel err.
  assert (collectTasks fuel options = Returns (inr err)) as Hcollect.
  { do 3 (destruct fuel as [|fuel]; [lia|]).
    unfold collectTasks. rewrite collect_S, HTasks.
    enter (Config options) HA. rewrite HdA, collect_S. simpl.
    enter (Config options) HB. rewrite HdB, collect_S. simpl.
    erewrite (collect_range_step _ _ (Config options)); [|done|exact HA'].
    cbn [taskStack cs_tasks].
    rewrite !Stack_Contains_Push, Hname.
    rewrite (bool_decide_eq_true_2 (TaskConfig_Name A = TaskConfig_Name A))
      by done.
    by rewrite orb_true_r. }
  split; [done|].
  unfold Run. rewrite HTasks. simpl.
  destruct (NewExecEnvFromConfig _ _ _) as [execEnv e]. simpl in Henv.
  subst e.
  replace (RunOptions_with_Tasks options [sA]) with options in *; last first.
  { destruct options. simpl in *. by subst. }
  by rewrite Hcollect.
Qed.





End scenarios.

(** ** The properties on the small installation *)
Section exercised.
Import task context types tasks demo.

(** The spec's C4 reads the volume kind as served by the factory; the
    factory has no case for it. *)
Lemma volume_reaches_panic :
  config.kindOf vol ∈ config.variants ∧
  buildTaskConfig (NewName "dist" "") vol
  = Panics "Unexpected config type *config.VolumeConfig".
Proof. split; [|reflexivity]. unfold config.variants. set_solver. Qed.


(** A job with two mounts, one explicit dependency and its image; a job
    whose [use] is empty. *)
Lemma JobConfig_Dependencies_order_witness :
  config.JobConfig_Dependencies
    (job "builder" ["source"; "dist"] ["prep:run"] [])
  = ([NewName "source" ""; NewName "dist" ""; NewName "prep" "run";
      NewName "builder" ""], None) ∧
  ∃ s' err,
    s' ∈ ["source"; ""] ∧ ParseName s' = inr err ∧
    config.JobConfig_Dependencies (job "" ["source"] [] []) = ([], Some err).
Proof.
  split.
  - apply (proj1 (JobConfig_Dependencies_order
                    (job "builder" ["source"; "dist"] ["prep:run"] []))
             [NewName "source" ""; NewName "dist" ""]
             [NewName "prep" "run"] (NewName "builder" ""));
      repeat constructor.
  - eapply (proj2 (JobConfig_Dependencies_order (job "" ["source"] [] []))
              ""); [|reflexivity].
    simpl. apply list_elem_of_further, list_elem_of_here.
Defined.


(** The tasks [a; b; c] where the run of [b] fails. *)
Lemma executeTasks_stops_started_witness :
  ∃ tA tB dA dB mA mB cause sA sB,
    callsOf (executeTasks w0 ctx0 {| tasks := [taskA; taskB; taskC] |}).1.2
    = [CallRun taskA tA dA mA None; CallRun taskB tB dB mB (Some cause);
       CallStop tB sB; CallStop tA sA] ∧
    (executeTasks w0 ctx0 {| tasks := [taskA; taskB; taskC] |}).2
    = Some ("failed to execute task " +:+ QuoteName (Task_Name tB)
            +:+ ": " +:+ cause).
Proof.
  apply (proj2 (executeTasks_stops_started w0 ctx0
                  {| tasks := [taskA; taskB; taskC] |}) taskA taskB taskC).
  - reflexivity.
  - intros env. reflexivity.
  - intros env. reflexivity.
  - intros resource w ctx d. reflexivity.
  - intros resource w ctx d. discriminate.
Defined.

(** The tasks of the installation do not touch the context. *)
Lemma simple_frames (R : relation (gset Name)) :
  Reflexive R → ∀ name resource deps m err,
    run_frames R (simpleConfig name resource deps m err).
Proof. intros HR name resource deps m err r w ctx d. simpl. apply HR. Defined.

(** [b'] after a changed [a], and after an unchanged [a]. *)
Lemma modified_propagates_witness :
  (∃ t d,
     CallRun taskB' t d false None
       ∈ (executeTasks w0 ctx0 {| tasks := [taskA; taskB'] |}).1.2 ∧
     d = true) ∧
  (∃ t d,
     CallRun taskB' t d false None
       ∈ (executeTasks w0 ctx0 {| tasks := [taskA'; taskB'] |}).1.2 ∧
     d = false).
Proof.
  split.
  - exists (simpleTask nameB false None), true. split.
    + vm_compute. do 8 apply list_elem_of_further. apply list_elem_of_here.
    + apply (proj1 (modified_propagates w0 ctx0
                      {| tasks := [taskA; taskB'] |}))
        with (before := take 3
                (executeTasks w0 ctx0 {| tasks := [taskA; taskB'] |}).1.2)
             (X := taskA) (tX := simpleTask nameA true None) (dX := false)
             (between := [CallSetModified nameA; Log Debug "Complete";
                          Log Debug "Start"; Log Info "Start"])
             (Y := taskB') (tY := simpleTask nameB false None)
             (mY := false) (eY := None)
             (after := drop 9
                (executeTasks w0 ctx0 {| tasks := [taskA; taskB'] |}).1.2).
      * repeat constructor; apply simple_frames; by intros ?.
      * vm_compute. reflexivity.
      * simpl. apply list_elem_of_here.
  - exists (simpleTask nameB false None), false. split.
    + vm_compute. do 7 apply list_elem_of_further. apply list_elem_of_here.
    + apply (proj2 (modified_propagates w0 ctx0
                      {| tasks := [taskA'; taskB'] |}))
        with (before := take 7
                (executeTasks w0 ctx0 {| tasks := [taskA'; taskB'] |}).1.2)
             (Y := taskB') (tY := simpleTask nameB false None)
             (mY := false) (eY := None)
             (after := drop 8
                (executeTasks w0 ctx0 {| tasks := [taskA'; taskB'] |}).1.2).
      * repeat constructor; apply simple_frames; by intros ?.
      * vm_compute. reflexivity.
      * intros d Hd. simpl. apply not_elem_of_empty.
      * intros X tX dX mX eX Hin _. vm_compute in Hin.
        repeat (apply elem_of_cons in Hin as [Hin|Hin]; [by simplify_eq|]).
        by apply elem_of_nil in Hin.
Defined.

(** The mark of [a] in the run of [a; b']. *)
Lemma marks_only_after_modified_run_witness :
  (∃ before' T t d,
     take 4 (executeTasks w0 ctx0 {| tasks := [taskA; taskB'] |}).1.2
     = before' ++ [CallRun T t d true None] ∧ Task_Name t = nameA) ∧
  (nameA ∈ modified ctx0 ∨
   ∃ T t d,
     CallRun T t d true None ∈ (executeTasks_range [taskA] w0 ctx0 []).1.2 ∧
     Task_Name t = nameA ∧ T ∈ [taskA]).
Proof.
  split.
  - apply (proj1 (marks_only_after_modified_run w0 ctx0
                    {| tasks := [taskA; taskB'] |}))
      with (after := drop 5
              (executeTasks w0 ctx0 {| tasks := [taskA; taskB'] |}).1.2).
    vm_compute. reflexivity.
  - apply (proj2 (marks_only_after_modified_run w0 ctx0
                    {| tasks := [taskA; taskB'] |}) [taskA] [taskB']).
    + reflexivity.
    + repeat constructor; apply simple_frames; by intros ?.
    + vm_compute. reflexivity.
Defined.

(** The diamond of aliases. *)
Lemma diamond_collects_shared_twice_witness :
  ∃ A B C D,
    map TaskConfig_Name [D; B; D; C; A]
    = [NewName "D" ""; NewName "B" ""; NewName "D" ""; NewName "C" "";
       NewName "A" ""] ∧
    collectTasks 4 (options diamond ["A"])
    = Returns (inl {| tasks := [D; B; D; C; A] |}).
Proof.
  exists
    (simpleConfig (NewName "A" "") (aliasOf ["B"; "C"])
       [NewName "B" ""; NewName "C" ""] false None),
    (simpleConfig (NewName "B" "") (aliasOf ["D"])
       [NewName "D" ""] false None),
    (simpleConfig (NewName "C" "") (aliasOf ["D"])
       [NewName "D" ""] false None),
    (simpleConfig (NewName "D" "") (aliasOf []) [] false None).
  split; [reflexivity|].
  eapply (proj1 (diamond_collects_shared_twice (options diamond ["A"]) "A"
                   _ _ _ _ (NewName "B" "") (NewName "C" "") (NewName "D" "")
                   4 _ _ _ _ _ _ _ _ _ _ _ _)).
  Unshelve.
  all: try (vm_compute; reflexivity).
  all: try lia.
  all: compute_done.
Defined.

(** The two aliases that stand for each other. *)
Lemma cycle_is_rejected_witness :
  collectTasks 3 (options cycle ["A"])
  = Returns (inr "Invalid dependency cycle: A, B") ∧
  Run 3 (options cycle ["A"]) w0
  = Returns (w0, [], Some "Invalid dependency cycle: A, B").
Proof.
  refine (cycle_is_rejected (options cycle ["A"]) "A"
            (simpleConfig (NewName "A" "") (aliasOf ["B"])
               [NewName "B" ""] false None)
            (simpleConfig (NewName "B" "") (aliasOf ["A"])
               [NewName "A" ""] false None)
            (simpleConfig (NewName "A" "") (aliasOf ["B"])
               [NewName "B" ""] false None)
            (NewName "A" "") (NewName "B" "") 3 w0 _ _ _ _ _ _ _ _ _ _).
  all: try (vm_compute; reflexivity).
  all: try discriminate.
  all: try lia.
Defined.

(** The sequence collected for the diamond is dependency-first. *)
Lemma collectTasks_dependency_first_witness :
  ∃ c,
    collectTasks 4 (options diamond ["A"]) = Returns (inl c) ∧
    map TaskConfig_Name (All c)
    = [NewName "D" ""; NewName "B" ""; NewName "D" ""; NewName "C" "";
       NewName "A" ""] ∧
    dependency_first (All c).
Proof.
  eexists. split; [vm_compute; reflexivity|]. split; [reflexivity|].
  eapply (collectTasks_dependency_first 4 (options diamond ["A"])).
  - vm_compute. reflexivity.
  - repeat apply Forall_cons_2; try apply Forall_nil_2.
    all: intros d T' Hd Hfor; simpl in Hd.
    all: repeat (apply elem_of_cons in Hd as [->|Hd];
                 [vm_compute in Hfor; by simplify_eq|]).
    all: by apply elem_of_nil in Hd.
Defined.


End exercised.

(** * Further properties of the code *)

(** ** The task collection and the small helpers of tasks.go *)
Section collection.
Import task context types tasks.
Context `{Syntax} `{config.Types} `{!config.Methods} `{Backend} `{!Packages}.

Lemma find_first {A} (f : A → bool) (l : list A) (x : A) :
  List.find f l = Some x ↔
  ∃ i, l !! i = Some x ∧ f x = true ∧
       ∀ j y, j < i → l !! j = Some y → f y = false.
Proof.
  induction l as [|a l IH]; simpl.
  - split; [done|]. by intros (i & Hi & _).
  - destruct (f a) eqn:Hfa.
    + split.
      * intros [= <-]. exists 0. split_and!; [done..|]. intros j y Hj. lia.
      * intros (i & Hi & Hfx & Hbefore). destruct i as [|i].
        -- simpl in Hi. congruence.
        -- specialize (Hbefore 0 a). simpl in Hbefore.
           rewrite Hbefore in Hfa; [done|lia|done].
    + rewrite IH. split.
      * intros (i & Hi & Hfx & Hbefore). exists (S i). split_and!; [done..|].
        intros [|j] y Hj Hy; simpl in Hy; [congruence|].
        apply (Hbefore j); [lia|done].
      * intros (i & Hi & Hfx & Hbefore). destruct i as [|i].
        -- simpl in Hi. congruence.
        -- exists i. split_and!; [done..|]. intros j y Hj Hy.
           apply (Hbefore (S j)); [lia|done].
Qed.

Lemma find_none_iff {A} (f : A → bool) (l : list A) :
  List.find f l = None ↔ ∀ x, x ∈ l → f x = false.
Proof.
  induction l as [|a l IH]; simpl.
  - split; [by intros _ x ?%elem_of_nil|done].
  - destruct (f a) eqn:Hfa.
    + split; [done|]. intros Hall. rewrite Hall in Hfa; [done|by left].
    + rewrite IH. split.
      * intros Hall x [->|Hx]%elem_of_cons; auto.
      * intros Hall x Hx. apply Hall. by right.
Qed.

Lemma find_app {A} (f : A → bool) (l1 l2 : list A) :
  List.find f (l1 ++ l2)
  = match List.find f l1 with Some x => Some x | None => List.find f l2 end.
Proof. induction l1 as [|a l1 IH]; simpl; [done|]. by destruct (f a). Qed.

(** X1.  [Get] returns the first TaskConfig of the collection that has
    the Name, and nothing exactly when no TaskConfig has it. *)
Theorem Get_first_match (c : TaskCollection) (name : Name) :
  (∀ T, Get c name = Some T ↔
     ∃ i, All c !! i = Some T ∧ TaskConfig_Name T = name ∧
          ∀ j T', j < i → All c !! j = Some T' → TaskConfig_Name T' ≠ name) ∧
  (Get c name = None ↔ ∀ T, T ∈ All c → TaskConfig_Name T ≠ name).
Proof.
  unfold Get, All, Equal. split.
  - intros T. rewrite find_first. split.
    + intros (i & Hi & HT%bool_decide_eq_true & Hbefore).
      exists i. split_and!; [done..|]. intros j T' Hj HT'.
      by apply (bool_decide_eq_false_1 _), (Hbefore j).
    + intros (i & Hi & HT & Hbefore).
      exists i. split_and!; [done|by apply bool_decide_eq_true|].
      intros j T' Hj HT'. by apply bool_decide_eq_false_2, (Hbefore j).
  - rewrite find_none_iff. split.
    + intros Hall T HT. by apply (bool_decide_eq_false_1 _), Hall.
    + intros Hall T HT. by apply bool_decide_eq_false_2, Hall.
Qed.

(** X2.  [add] appends at the end, so a lookup that succeeded before still
    returns the same TaskConfig, and the added TaskConfig is found only
    under a Name that no earlier TaskConfig has. *)
Theorem Get_add (c : TaskCollection) (T : TaskConfig) (name : Name) :
  All (add c T) = All c ++ [T] ∧
  Get (add c T) name =
    match Get c name with
    | Some T' => Some T'
    | None => if bool_decide (TaskConfig_Name T = name) then Some T else None
    end.
Proof.
  split; [done|]. unfold Get, add, Equal. simpl. rewrite find_app. simpl.
  done.
Qed.

(** X3.  [reversed] is list reversal: it keeps the length, reads the
    element at [i] from position [len - 1 - i], and undoes itself. *)
Theorem reversed_reverses (l : list Task) :
  reversed l = reverse l ∧
  length (reversed l) = length l ∧
  reversed (reversed l) = l ∧
  ∀ i t, reversed l !! i = Some t ↔
         i < length l ∧ l !! (length l - S i) = Some t.
Proof.
  assert (∀ l : list Task, reversed l = reverse l) as Hrev.
  { intros l'. unfold reverse. by rewrite reversed_rev, rev_alt. }
  split_and!.
  - apply Hrev.
  - by rewrite Hrev, length_reverse.
  - by rewrite !Hrev, reverse_involutive.
  - intros i t. rewrite Hrev. split.
    + intros Hi. assert (i < length l) as Hlt.
      { apply lookup_lt_Some in Hi. by rewrite length_reverse in Hi. }
      split; [done|]. by rewrite reverse_lookup in Hi.
    + intros [Hlt Hi]. by rewrite reverse_lookup.
Qed.

Lemma hasModifiedDeps_true (ctx : ExecuteContext) (deps : list Name) :
  hasModifiedDeps ctx deps = true ↔ ∃ dep, dep ∈ deps ∧ dep ∈ modified ctx.
Proof.
  induction deps as [|dep deps IH]; simpl.
  - split; [done|]. by intros (dep & ?%elem_of_nil & _).
  - unfold IsModified. case_bool_decide as Hdep.
    + split; [|done]. intros _. exists dep. split; [by left | done].
    + rewrite IH. split; intros (d & Hd & HM).
      * exists d. split; [by right | done].
      * apply elem_of_cons in Hd as [->|Hd]; [done|]. by exists d.
Qed.

(** X4.  [hasModifiedDeps] holds exactly when one of the dependencies is
    marked in the context; marking a Name turns the answer to true for
    the dependency lists that contain it and changes no other answer, and
    registering a resource changes none. *)
Theorem hasModifiedDeps_spec (ctx : ExecuteContext) (deps : list Name) :
  (hasModifiedDeps ctx deps = true ↔ ∃ dep, dep ∈ deps ∧ dep ∈ modified ctx) ∧
  (∀ name,
     hasModifiedDeps (SetModified ctx name) deps
     = hasModifiedDeps ctx deps || bool_decide (name ∈ deps)) ∧
  (∀ key resource,
     hasModifiedDeps (Resources_Add ctx key resource) deps
     = hasModifiedDeps ctx deps).
Proof.
  split_and!.
  - apply hasModifiedDeps_true.
  - intros name. apply eq_true_iff_eq.
    rewrite orb_true_iff, !hasModifiedDeps_true, bool_decide_eq_true. simpl.
    split.
    + intros (d & Hd & [->%elem_of_singleton|HM]%elem_of_union); [by right|].
      left. by exists d.
    + intros [(d & Hd & HM)|Hname].
      * exists d. split; [done|]. apply elem_of_union. by right.
      * exists name. split; [done|]. apply elem_of_union. left.
        by apply elem_of_singleton.
  - intros key resource. apply eq_true_iff_eq.
    by rewrite !hasModifiedDeps_true.
Qed.

End collection.

(** ** More on the collector *)
Section collector_more.
Import task context types tasks.
Context `{Syntax} `{config.Types} `{Backend} `{!Packages}.

Implicit Types (options : RunOptions) (state : collectionState).
Implicit Types (T : TaskConfig) (fuel : nat).

(** X5.  With no name requested the collection is empty.  When the first
    requested name does not parse, the error of [ParseName] is returned;
    when its resource is not in the configuration, the error says that
    the quoted resource does not exist. *)
Theorem collectTasks_first_name fuel options :
  (Tasks options = [] →
   collectTasks (S fuel) options = Returns (inl newTaskCollection)) ∧
  (∀ s rest e,
     Tasks options = s :: rest → ParseName s = inr e →
     collectTasks (S fuel) options = Returns (inr e)) ∧
  (∀ s rest task,
     Tasks options = s :: rest → ParseName s = inl task →
     config.Resources (Config options) !! Resource task = None →
     collectTasks (S fuel) options
     = Returns (inr ("resource " +:+ Quote (Resource task)
                     +:+ " does not exist"))).
Proof.
  unfold collectTasks. split_and!.
  - intros HT. simpl. by rewrite HT.
  - intros s rest e HT Hs. simpl. rewrite HT. simpl. by rewrite Hs.
  - intros s rest task HT Hs Hres. simpl. rewrite HT. simpl.
    by rewrite Hs, Hres.
Qed.

(** X6.  When the TaskConfigs that the factories build carry Names of a
    finite set, the collector ends within a recursion depth of one more
    than the size of the set, and every larger bound gives the same
    result. *)
Theorem collectTasks_enough_fuel fuel (more : nat) options (U : gset Name) :
  (∀ s T, configFor (Config options) s = Some T → TaskConfig_Name T ∈ U) →
  size U < fuel →
  collectTasks fuel options ≠ OutOfFuel ∧
  collectTasks (fuel + more) options = collectTasks fuel options.
Proof.
  intros HU Hsize.
  pose proof (collectTasks_returns fuel options U HU Hsize) as Hret.
  split; [done|]. unfold collectTasks in *.
  destruct (collect fuel options _) as [[state res]| |] eqn:Hc;
    simpl in Hret; try done.
  - by rewrite (collect_more_fuel fuel more _ _ _ Hc).
  - by rewrite (collect_more_fuel fuel more _ _ _ Hc).
Qed.

(** X7.  A successful call of [collect] returns the collection of its
    state, keeps the TaskConfigs collected before as a prefix of it, and
    leaves the stack as it found it. *)
Theorem collect_appends_and_restores fuel options state state' res :
  collect fuel options state = Returns (state', inl res) →
  res = cs_tasks state' ∧
  tasks (cs_tasks state) `prefix_of` tasks (cs_tasks state') ∧
  taskStack state' = taskStack state.
Proof.
  intros Hc. pose proof (collect_stack _ _ _ _ _ Hc) as Hstack.
  apply collect_collects in Hc as (-> & new & Htasks & _).
  split_and!; [done| |done]. by exists new.
Qed.

Lemma collect_range_built self (conf : config.Config) (P : TaskConfig → Prop) :
  (∀ s T, configFor conf s = Some T → P T) →
  (∀ options state state' res,
     Config options = conf →
     self options state = Returns (state', inl res) →
     Forall P (tasks (cs_tasks state)) → Forall P (tasks (cs_tasks state'))) →
  ∀ range options state state' res,
    Config options = conf →
    collect_range self options range state = Returns (state', inl res) →
    Forall P (tasks (cs_tasks state)) → Forall P (tasks (cs_tasks state')).
Proof.
  intros HP Hself range.
  induction range as [|s range IH];
    intros options state state' res Hconf Hc Hold.
  - simpl in Hc. by simplify_eq.
  - apply collect_range_cons_inv in Hc
      as (T & state1 & res1 & Hfor & _ & Hrec & Hrest).
    eapply IH; [|exact Hrest|]; [done|]. simpl.
    apply Forall_app. split.
    + eapply Hself; [|exact Hrec|]; done.
    + apply Forall_singleton, (HP s). by rewrite <- Hconf.
Qed.

Lemma collect_built fuel options state state' res (P : TaskConfig → Prop) :
  (∀ s T, configFor (Config options) s = Some T → P T) →
  collect fuel options state = Returns (state', inl res) →
  Forall P (tasks (cs_tasks state)) → Forall P (tasks (cs_tasks state')).
Proof.
  intros HP. revert options state state' res HP.
  induction fuel as [|fuel IH]; intros options state state' res HP Hc;
    [done|].
  simpl in Hc.
  eapply (collect_range_built (collect fuel) (Config options) P);
    [done| |done|exact Hc].
  intros options' st st' r Hconf Hrec. eapply IH; [|exact Hrec].
  by rewrite Hconf.
Qed.

(** X8.  A collection that [collectTasks] returns holds a TaskConfig for
    every requested name and for every dependency of each of its
    TaskConfigs, and holds nothing but TaskConfigs that the factory built
    for a name of the configuration. *)
Theorem collectTasks_closed fuel options (c : TaskCollection) :
  collectTasks fuel options = Returns (inl c) →
  (∀ s, s ∈ Tasks options →
     ∃ T, T ∈ All c ∧ configFor (Config options) s = Some T) ∧
  (∀ T d, T ∈ All c → d ∈ TaskConfig_Dependencies T →
     ∃ T', T' ∈ All c ∧ configFor (Config options) (Name_Name d) = Some T') ∧
  (∀ T, T ∈ All c → ∃ s, configFor (Config options) s = Some T).
Proof.
  unfold collectTasks. intros Hc.
  destruct (collect fuel options _) as [[state' res]| |] eqn:Hcollect;
    simpl in Hc; simplify_eq.
  assert (∀ s T, configFor (Config options) s = Some T →
                 ∃ s', configFor (Config options) s' = Some T) as HP.
  { intros s T HT. by exists s. }
  pose proof (collect_built _ _ _ _ _
    (λ T, ∃ s, configFor (Config options) s = Some T) HP Hcollect) as Hbuilt.
  apply collect_collects in Hcollect as (-> & new & Htasks & Hreq & Hfirst).
  simpl in Htasks. unfold All. rewrite Htasks in *. split_and!.
  - intros s Hs. destruct (Hreq s Hs) as (j & T & Hj & Hfor).
    exists T. split; [by eapply list_elem_of_lookup_2 | done].
  - intros T d [i Hi]%list_elem_of_lookup_1 Hd.
    destruct (Hfirst i T d Hi Hd) as (j & T' & _ & Hj & Hfor).
    exists T'. split; [by eapply list_elem_of_lookup_2 | done].
  - intros T HT. simpl in Hbuilt.
    specialize (Hbuilt (Forall_nil_2 _)). rewrite Forall_forall in Hbuilt.
    by apply Hbuilt.
Qed.

End collector_more.

(** ** More on the execution engine *)
Section engine_more.
Import task context types tasks.
Context `{Syntax} `{config.Types} `{!config.Methods} `{Backend} `{!Packages}.

Implicit Types (T taskConfig : TaskConfig) (t : Task) (range : list TaskConfig).
Implicit Types (w : World) (ctx : ExecuteContext) (events : list Event).

(** Opens one iteration of the loop, for each shape of its events. *)
Ltac iterate IH :=
  let m := fresh "m" in
  simpl;
  destruct (config.Resource_Resolve _ _) as [?resource [?err|]] eqn:?Hresolve;
  simpl;
  [ | destruct (Task_Run _ _ _ _) as [[?w ?ctx] [m [?err|]]] eqn:?Hrun;
      simpl;
      [ destruct (bool_decide (Action _ ≠ Remove)); simpl
      | destruct m;
          match goal with
          | |- context [executeTasks_range ?r ?w ?c ?s] =>
              try specialize (IH w c s);
              destruct (executeTasks_range r w c s)
                as [[[[?w ?ctx] ?started] ?rest] ?err] eqn:?Hrest
          end; simpl in *;
          destruct (bool_decide (Action _ ≠ Remove)); simpl in * ] ].

Lemma runResults_ranOf events : map fst (runResults events) = ranOf events.
Proof. induction events as [|[] events IH]; simpl; by rewrite ?IH. Qed.

Lemma runResults_app events1 events2 :
  runResults (events1 ++ events2) = runResults events1 ++ runResults events2.
Proof. induction events1 as [|[] events1 IH]; simpl; by rewrite ?IH. Qed.

Lemma runResults_no_runs events : ranOf events = [] → runResults events = [].
Proof. induction events as [|[] events IH]; simpl; by auto. Qed.

Lemma executeTasks_runResults w ctx (c : TaskCollection) :
  runResults (executeTasks w ctx c).1.2
  = runResults (executeTasks_range (All c) w ctx []).1.2.
Proof.
  destruct (executeTasks_events w ctx c) as [-> _].
  rewrite runResults_app. simpl.
  rewrite (runResults_no_runs (stopTasks _ _ _).2), app_nil_r; [done|].
  apply stopTasks_stops.
Qed.

(** Only the last run of the loop can have failed, and the loop returns
    no error exactly when it ran every TaskConfig without one. *)
Lemma executeTasks_range_results range w ctx (started : list Task) :
  let r := executeTasks_range range w ctx started in
  (∀ i T e, runResults r.1.2 !! i = Some (T, Some e) →
            S i = length (runResults r.1.2)) ∧
  (r.2 = None ↔
   map fst (runResults r.1.2) = range ∧
   Forall (λ x, x.2 = None) (runResults r.1.2)).
Proof.
  revert w ctx started.
  induction range as [|taskConfig range IH]; intros w ctx started.
  - simpl. split; [done|]. by split.
  - iterate IH.
    + split; [done|]. split; [done|]. by intros [? _].
    + split.
      * intros [|i] T e Hi; [done|]. by destruct i.
      * split; [done|]. intros [_ Hall]. by inversion Hall.
    + split.
      * intros [|i] T e Hi; [done|]. by destruct i.
      * split; [done|]. intros [_ Hall]. by inversion Hall.
    + destruct IH as [Hlast Hnone]. split.
      * intros [|i] T e Hi; [done|]. simpl in Hi. f_equal. by eapply Hlast.
      * rewrite Hnone. split.
        -- intros [-> Hall]. split; [done|]. by constructor.
        -- intros [[= ->] Hall]. split; [done|]. by inversion Hall.
    + destruct IH as [Hlast Hnone]. split.
      * intros [|i] T e Hi; [done|]. simpl in Hi. f_equal. by eapply Hlast.
      * rewrite Hnone. split.
        -- intros [-> Hall]. split; [done|]. by constructor.
        -- intros [[= ->] Hall]. split; [done|]. by inversion Hall.
    + destruct IH as [Hlast Hnone]. split.
      * intros [|i] T e Hi; [done|]. simpl in Hi. f_equal. by eapply Hlast.
      * rewrite Hnone. split.
        -- intros [-> Hall]. split; [done|]. by constructor.
        -- intros [[= ->] Hall]. split; [done|]. by inversion Hall.
    + destruct IH as [Hlast Hnone]. split.
      * intros [|i] T e Hi; [done|]. simpl in Hi. f_equal. by eapply Hlast.
      * rewrite Hnone. split.
        -- intros [-> Hall]. split; [done|]. by constructor.
        -- intros [[= ->] Hall]. split; [done|]. by inversion Hall.
Qed.

(** X10.  [executeTasks] runs the tasks of a prefix of the collection; a
    run that failed is the last run; and the result is no error exactly
    when the task of every TaskConfig was run and no run failed. *)
Theorem first_failure_ends_run w ctx (c : TaskCollection) :
  let rs := runResults (executeTasks w ctx c).1.2 in
  map fst rs `prefix_of` All c ∧
  (∀ i T e, rs !! i = Some (T, Some e) → S i = length rs) ∧
  ((executeTasks w ctx c).2 = None ↔
   map fst rs = All c ∧ Forall (λ x, x.2 = None) rs).
Proof.
  intros rs. subst rs. rewrite executeTasks_runResults.
  destruct (executeTasks_events w ctx c) as [_ ->].
  pose proof (executeTasks_range_results (All c) w ctx []) as [Hlast Hnone].
  pose proof (executeTasks_range_ran (All c) w ctx [])
    as (_ & rest & Hrange & _).
  split_and!; [|done..].
  rewrite runResults_ranOf. by exists rest.
Qed.

(** X11.  On a dependency-first collection, when the task of a TaskConfig
    is run, the task of a TaskConfig with the Name of each of its
    dependencies was run before it and returned no error. *)
Theorem runs_follow_dependencies w ctx (c : TaskCollection) :
  dependency_first (All c) →
  let rs := runResults (executeTasks w ctx c).1.2 in
  ∀ i Y eY d,
    rs !! i = Some (Y, eY) → d ∈ TaskConfig_Dependencies Y →
    ∃ j T', j < i ∧ rs !! j = Some (T', None) ∧ TaskConfig_Name T' = d.
Proof.
  intros Hfirst rs. subst rs. rewrite executeTasks_runResults.
  pose proof (executeTasks_range_results (All c) w ctx []) as [Hlast _].
  pose proof (executeTasks_range_ran (All c) w ctx [])
    as (_ & rest & Hrange & _).
  simpl in Hlast, Hrange.
  set (rs := runResults (executeTasks_range (All c) w ctx []).1.2) in *.
  assert (∀ k T e, rs !! k = Some (T, e) → All c !! k = Some T) as Hat.
  { intros k T e Hk. rewrite Hrange. apply lookup_app_l_Some.
    unfold rs in Hk. rewrite <- runResults_ranOf, list_lookup_fmap.
    by rewrite Hk. }
  intros i Y eY d Hi Hd.
  destruct (Hfirst i Y d (Hat _ _ _ Hi) Hd) as (j & T' & Hlt & Hj & Hname).
  destruct (lookup_lt_is_Some_2 rs j) as [[T'' e''] Hj'].
  { apply lookup_lt_Some in Hi. lia. }
  pose proof (Hat _ _ _ Hj') as Hj''. rewrite Hj in Hj''. simplify_eq.
  exists j, T''. split_and!; [done| |done].
  destruct e'' as [e|]; [|done].
  apply Hlast in Hj'. apply lookup_lt_Some in Hi. lia.
Qed.

Lemma stopTasks_warnings (l : list Task) w ctx :
  warningsOf (stopTasks l w ctx).2 = stopFailures (stopTasks l w ctx).2.
Proof.
  revert w ctx. induction l as [|t l IH]; intros w ctx; [done|].
  simpl. destruct (Task_Stop t w ctx) as [[w1 ctx1] err].
  specialize (IH w1 ctx1).
  destruct (stopTasks l w1 ctx1) as [[w2 ctx2] rest]. simpl in *.
  destruct err; simpl; by rewrite IH.
Qed.

Lemma executeTasks_range_quiet range w ctx (started : list Task) :
  warningsOf (executeTasks_range range w ctx started).1.2 = [] ∧
  stopFailures (executeTasks_range range w ctx started).1.2 = [].
Proof.
  revert w ctx started.
  induction range as [|taskConfig range IH]; intros w ctx started; [done|].
  by iterate IH.
Qed.

Lemma warningsOf_app events1 events2 :
  warningsOf (events1 ++ events2) = warningsOf events1 ++ warningsOf events2.
Proof.
  induction events1 as [|[[] ?| | |] events1 IH]; simpl; by rewrite ?IH.
Qed.

Lemma stopFailures_app events1 events2 :
  stopFailures (events1 ++ events2)
  = stopFailures events1 ++ stopFailures events2.
Proof.
  induction events1 as [|[| | |? []] events1 IH]; simpl; by rewrite ?IH.
Qed.

(** X12.  The warnings that [executeTasks] logs are those of the calls of
    [Stop] that returned an error, one for each in the order of the
    calls, and the error that [executeTasks] returns is the one the loop
    ended with, whatever the calls of [Stop] returned. *)
Theorem stop_failures_are_warnings w ctx (c : TaskCollection) :
  warningsOf (executeTasks w ctx c).1.2
  = stopFailures (executeTasks w ctx c).1.2 ∧
  (executeTasks w ctx c).2 = (executeTasks_range (All c) w ctx []).2.
Proof.
  destruct (executeTasks_events w ctx c) as [-> ->]. split; [|done].
  rewrite warningsOf_app, stopFailures_app. simpl.
  destruct (executeTasks_range_quiet (All c) w ctx []) as [-> ->].
  simpl. apply stopTasks_warnings.
Qed.

(** X13.  When the runs leave the registry of resolved resources alone,
    after the loop each key of the registry either holds what it held
    before, and then no TaskConfig that was run has it as the resource of
    its Name, or holds the resolved resource of a TaskConfig that was run
    and has it as the resource of its Name. *)
Theorem resolved_resources_registered range w ctx (started : list Task) :
  Forall run_keeps_resources range →
  let r := executeTasks_range range w ctx started in
  ∀ key,
    (Resources r.1.1.1.2 !! key = Resources ctx !! key ∧
     ∀ T, T ∈ ranOf r.1.2 → Resource (TaskConfig_Name T) ≠ key) ∨
    (∃ T env,
       T ∈ ranOf r.1.2 ∧ Resource (TaskConfig_Name T) = key ∧
       Resources r.1.1.1.2 !! key
       = Some (config.Resource_Resolve (TaskConfig_Resource T) env).1).
Proof.
  revert w ctx started.
  induction range as [|taskConfig range IH];
    intros w ctx started Hframes r key; subst r.
  { left. split; [done|]. by intros T ?%elem_of_nil. }
  apply Forall_cons in Hframes as [Hframe Hframes].
  specialize (λ w ctx started, IH w ctx started Hframes).
  assert (∀ ctx' resource,
    config.Resource_Resolve (TaskConfig_Resource taskConfig) (Env ctx)
      = (resource, None) →
    Resources ctx'
      = <[Resource (TaskConfig_Name taskConfig) := resource]> (Resources ctx) →
    (Resources ctx' !! key = Resources ctx !! key ∧
     Resource (TaskConfig_Name taskConfig) ≠ key) ∨
    (Resource (TaskConfig_Name taskConfig) = key ∧
     Resources ctx' !! key
     = Some (config.Resource_Resolve (TaskConfig_Resource taskConfig)
               (Env ctx)).1)) as Hhead.
  { intros ctx' resource Hres Hctx'. rewrite Hctx', Hres. simpl.
    destruct (decide (Resource (TaskConfig_Name taskConfig) = key))
      as [<-|Hne].
    - right. by rewrite lookup_insert_eq.
    - left. by rewrite lookup_insert_ne. }
  iterate IH.
  { left. split; [done|]. by intros T ?%elem_of_nil. }
  all: specialize (Hframe resource w (Resources_Add ctx
         (Resource (TaskConfig_Name taskConfig)) resource)
         (hasModifiedDeps (Resources_Add ctx
            (Resource (TaskConfig_Name taskConfig)) resource)
            (TaskConfig_Dependencies taskConfig)));
    rewrite Hrun in Hframe; simpl in Hframe;
    destruct (Hhead ctx0 resource eq_refl Hframe) as [[Hsame Hne]|[Heq Hnew]];
    simpl in *.
  all: try (destruct (IH key) as [[Hkept Hnone]|(T & env & HT & Hkey & Hval)]).
  all: first
    [ left; split; [by rewrite ?Hkept|];
      intros T' [->|HT']%elem_of_cons;
      [done|first [by apply Hnone | by apply elem_of_nil in HT']]
    | right; exists taskConfig, (Env ctx); rewrite Hresolve;
      split_and!; [by left|done|by rewrite ?Hkept]
    | right; exists T, env; split_and!; [by right|done..] ].
Qed.

End engine_more.

(** ** More on [Run] *)
Section run_more.
Import task context types tasks.
Context `{Syntax} `{config.Types} `{!config.Methods} `{Backend} `{!Packages}.

(** X14.  With no task name given and no default task configured, [Run]
    returns the usage error and does nothing; with a default task
    configured it behaves as for the request of that one name. *)
Theorem Run_default_task (fuel : nat) (options : RunOptions) (w : World) :
  (Tasks options = [] →
   config.Default (config.Meta (Config options)) = "" →
   Run fuel options w
   = Returns (w, [], Some "no task to run, and no default task defined")) ∧
  (Tasks options = [] →
   config.Default (config.Meta (Config options)) ≠ "" →
   Run fuel options w
   = Run fuel
       (RunOptions_with_Tasks options
          [config.Default (config.Meta (Config options))]) w).
Proof.
  split; intros HTasks HDefault; unfold Run; rewrite HTasks; simpl.
  - by rewrite bool_decide_eq_true_2.
  - by rewrite bool_decide_eq_false_2.
Qed.

(** X15.  For a request that names a task: an error of the variable
    environment or of the collection is returned before any task is
    touched, with the world as it was and no event; otherwise [Run] is
    [executeTasks] on the collected tasks with a fresh context. *)
Theorem Run_aborts_before_execution (fuel : nat) (options : RunOptions)
    (w : World) (e : error) :
  Tasks options ≠ [] →
  ((NewExecEnvFromConfig
      (config.ExecID (config.Meta (Config options)))
      (config.Project (config.Meta (Config options)))
      (config.Config_WorkingDir (Config options))).2 = Some e →
   Run fuel options w = Returns (w, [], Some e)) ∧
  ((NewExecEnvFromConfig
      (config.ExecID (config.Meta (Config options)))
      (config.Project (config.Meta (Config options)))
      (config.Config_WorkingDir (Config options))).2 = None →
   collectTasks fuel options = Returns (inr e) →
   Run fuel options w = Returns (w, [], Some e)) ∧
  ((NewExecEnvFromConfig
      (config.ExecID (config.Meta (Config options)))
      (config.Project (config.Meta (Config options)))
      (config.Config_WorkingDir (Config options))).2 = None →
   ∀ c, collectTasks fuel options = Returns (inl c) →
     Run fuel options w
     = Returns
         (let r :=
            executeTasks w
              (NewExecuteContext (Config options) (Client options)
                 (NewExecEnvFromConfig
      (config.ExecID (config.Meta (Config options)))
      (config.Project (config.Meta (Config options)))
      (config.Config_WorkingDir (Config options))).1
                 (NewSettings (Quiet options) (BindMount options))) c in
          (r.1.1.1, r.1.2, r.2))).
Proof.
  intros HTasks.
  assert (bool_decide (length (Tasks options) = 0) = false) as Hlen.
  { apply bool_decide_eq_false_2. by destruct (Tasks options). }
  unfold Run. rewrite Hlen.
  destruct (NewExecEnvFromConfig _ _ _) as [execEnv err]. simpl.
  split_and!.
  - by intros ->.
  - intros -> Hc. by rewrite Hc.
  - intros -> c Hc. rewrite Hc. simpl.
    by destruct (executeTasks _ _ _) as [[[w' ctx'] events] err'].
Qed.

End run_more.

(** ** Validation, resolution and loading of a job *)
Section job_more.
Import config.
Context `{Types} `{!Paths} `{!Loader}.

(** X16.  [validateUse] accepts the job exactly when [use] names an image
    resource of the configuration; every other case, a missing resource
    too, gives the same error, which names [use]. *)
Theorem validateUse_spec (c : JobConfig) (conf : Config) :
  (validateUse c conf = None ↔
   ∃ image, Resources conf !! Use c = Some (ofImageConfig image)) ∧
  (∀ e, validateUse c conf = Some e →
        e = Use c +:+ " is not an image resource").
Proof.
  unfold validateUse.
  destruct (Resources conf !! Use c) as [[]|]; split;
    first [by intros e [= <-] | by intros e
          | split; [by intros | by intros [? ?]]
          | split; [intros _; by eexists | done] ].
Qed.

(** X17.  [validateMounts] accepts the job exactly when every entry of
    [mounts] names a mount resource; otherwise the error names the first
    entry that does not. *)
Theorem validateMounts_spec (c : JobConfig) (conf : Config) :
  (validateMounts c conf = None ↔
   Forall (λ m, ∃ mc, Resources conf !! m = Some (ofMountConfig mc))
     (Mounts c)) ∧
  (∀ e, validateMounts c conf = Some e →
     ∃ i m,
       Mounts c !! i = Some m ∧ e = m +:+ " is not a mount resource" ∧
       (¬ ∃ mc, Resources conf !! m = Some (ofMountConfig mc)) ∧
       ∀ j m', j < i → Mounts c !! j = Some m' →
               ∃ mc, Resources conf !! m' = Some (ofMountConfig mc)).
Proof.
  unfold validateMounts. induction (Mounts c) as [|m l [IH1 IH2]]; simpl.
  { split; [by split|done]. }
  destruct (Resources conf !! m) as [res|] eqn:Hm; [destruct res|].
  3:{ split.
      - rewrite IH1. split.
        + intros Hall. constructor; [by eexists|done].
        + by inversion 1.
      - intros e (i & m' & Hi & -> & Hno & Hbefore)%IH2.
        exists (S i), m'. split_and!; [done..|].
        intros [|j] m'' Hj Hm''; simpl in Hm''.
        + simplify_eq. by eexists.
        + apply (Hbefore j); [lia|done]. }
  all: split;
    [ split; [done|]; inversion 1 as [|?? [mc Hmc]]; congruence
    | intros e [= <-]; exists 0, m; split_and!;
      [done|done|intros [mc Hmc]; congruence|intros j m' ?; lia] ].
Qed.

(** X18.  [Validate] accepts the job exactly when the four checks pass,
    and otherwise reports the first check that fails, in the order use,
    mounts, artifact, sources, at the path extended by the name of the
    check. *)
Theorem JobConfig_Validate_spec (c : JobConfig) (path : pth_Path)
    (conf : Config) :
  (JobConfig_Validate c path conf = None ↔
   validateUse c conf = None ∧ validateMounts c conf = None ∧
   PathGlobs_Validate (Artifact c) = None ∧
   PathGlobs_Validate (Sources c) = None) ∧
  (∀ e, validateUse c conf = Some e →
     JobConfig_Validate c path conf
     = Some (pth_Errorf (Path_Add path "use") e)) ∧
  (∀ e, validateUse c conf = None → validateMounts c conf = Some e →
     JobConfig_Validate c path conf
     = Some (pth_Errorf (Path_Add path "mounts") e)) ∧
  (∀ e, validateUse c conf = None → validateMounts c conf = None →
     PathGlobs_Validate (Artifact c) = Some e →
     JobConfig_Validate c path conf
     = Some (pth_Errorf (Path_Add path "artifact") e)) ∧
  (∀ e, validateUse c conf = None → validateMounts c conf = None →
     PathGlobs_Validate (Artifact c) = None →
     PathGlobs_Validate (Sources c) = Some e →
     JobConfig_Validate c path conf
     = Some (pth_Errorf (Path_Add path "sources") e)).
Proof.
  unfold JobConfig_Validate. simpl.
  destruct (validateUse c conf), (validateMounts c conf),
    (PathGlobs_Validate (Artifact c)), (PathGlobs_Validate (Sources c));
    split_and!; try done; try (by intros ? [= <-]);
    try (by intros ? ? [= <-]); try (by intros ? ? ? [= <-]);
    try (by intros ? ? ? ? [= <-]); split; try done; by intros (?&?&?&?).
Qed.

(** X19.  [JobConfig.Resolve] resolves Env, WorkingDir, User and NetMode
    in this order and stops at the first error: it returns that error,
    and the fields after the failing one hold what the receiver holds.
    It returns no error exactly when the four steps succeed. *)
Theorem JobConfig_Resolve_first_error (c : JobConfig) (resolver : Resolver) :
  let conf := (JobConfig_Resolve c resolver).1 in
  let err := (JobConfig_Resolve c resolver).2 in
  (err = None ↔
   (ResolveSlice resolver (Env c)).2 = None ∧
   (Resolve resolver (WorkingDir c)).2 = None ∧
   (Resolve resolver (User c)).2 = None ∧
   (Resolve resolver (NetMode c)).2 = None) ∧
  (∀ e, (ResolveSlice resolver (Env c)).2 = Some e →
     err = Some e ∧ WorkingDir conf = WorkingDir c ∧ User conf = User c ∧
     NetMode conf = NetMode c) ∧
  (∀ e, (ResolveSlice resolver (Env c)).2 = None →
     (Resolve resolver (WorkingDir c)).2 = Some e →
     err = Some e ∧ User conf = User c ∧ NetMode conf = NetMode c) ∧
  (∀ e, (ResolveSlice resolver (Env c)).2 = None →
     (Resolve resolver (WorkingDir c)).2 = None →
     (Resolve resolver (User c)).2 = Some e →
     err = Some e ∧ NetMode conf = NetMode c) ∧
  (∀ e, (ResolveSlice resolver (Env c)).2 = None →
     (Resolve resolver (WorkingDir c)).2 = None →
     (Resolve resolver (User c)).2 = None →
     (Resolve resolver (NetMode c)).2 = Some e →
     err = Some e).
Proof.
  unfold JobConfig_Resolve.
  destruct (ResolveSlice resolver (Env c)) as [v1 [e1|]],
    (Resolve resolver (WorkingDir c)) as [v2 [e2|]],
    (Resolve resolver (User c)) as [v3 [e3|]],
    (Resolve resolver (NetMode c)) as [v4 [e4|]]; simpl;
    split_and!; try done; try (by intros ? [= <-]);
    try (by intros ? ? [= <-]); try (by intros ? ? ? [= <-]);
    try (by intros ? ? ? ? [= <-]); split; try done; by intros (?&?&?&?).
Qed.

(** X20.  [EnvConfig.Resolve] resolves Files, then Variables, and stops at
    the first error: when Files fails, that error is returned and
    Variables holds what the receiver holds. *)
Theorem EnvConfig_Resolve_first_error (c : EnvConfig) (resolver : Resolver) :
  let conf := (EnvConfig_Resolve c resolver).1 in
  let err := (EnvConfig_Resolve c resolver).2 in
  (err = None ↔
   (ResolveSlice resolver (Files c)).2 = None ∧
   (ResolveSlice resolver (Variables c)).2 = None) ∧
  (∀ e, (ResolveSlice resolver (Files c)).2 = Some e →
     err = Some e ∧ Variables conf = Variables c) ∧
  (∀ e, (ResolveSlice resolver (Files c)).2 = None →
     (ResolveSlice resolver (Variables c)).2 = Some e →
     err = Some e).
Proof.
  unfold EnvConfig_Resolve.
  destruct (ResolveSlice resolver (Files c)) as [v1 [e1|]],
    (ResolveSlice resolver (Variables c)) as [v2 [e2|]]; simpl;
    split_and!; try done; try (by intros ? [= <-]);
    try (by intros ? ? [= <-]); split; try done; by intros (?&?).
Qed.

(** X21.  With a resolver whose results resolve to themselves, a
    resolved job resolves to itself, and so does a resolved env. *)
Theorem Resolve_idempotent (resolver : Resolver) :
  (∀ l l', ResolveSlice resolver l = (l', None) →
           ResolveSlice resolver l' = (l', None)) →
  (∀ s s', Resolve resolver s = (s', None) →
           Resolve resolver s' = (s', None)) →
  (∀ c c' : JobConfig,
     JobConfig_Resolve c resolver = (c', None) →
     JobConfig_Resolve c' resolver = (c', None)) ∧
  (∀ c c' : EnvConfig,
     EnvConfig_Resolve c resolver = (c', None) →
     EnvConfig_Resolve c' resolver = (c', None)).
Proof.
  intros Hslice Hstring. split.
  - intros c c'. unfold JobConfig_Resolve.
    destruct (ResolveSlice resolver (Env c)) as [v1 [e1|]] eqn:Hr1; [done|].
    destruct (Resolve resolver (WorkingDir c)) as [v2 [e2|]] eqn:Hr2; [done|].
    destruct (Resolve resolver (User c)) as [v3 [e3|]] eqn:Hr3; [done|].
    destruct (Resolve resolver (NetMode c)) as [v4 [e4|]] eqn:Hr4; [done|].
    intros [= <-]. simpl.
    by rewrite (Hslice _ _ Hr1), (Hstring _ _ Hr2), (Hstring _ _ Hr3),
      (Hstring _ _ Hr4).
  - intros c c'. unfold EnvConfig_Resolve.
    destruct (ResolveSlice resolver (Files c)) as [v1 [e1|]] eqn:Hr1; [done|].
    destruct (ResolveSlice resolver (Variables c)) as [v2 [e2|]] eqn:Hr2;
      [done|].
    intros [= <-]. simpl. by rewrite (Hslice _ _ Hr1), (Hslice _ _ Hr2).
Qed.

(** X22.  [TransformConfig] on a string that splits stores the string and
    its parts, so [String] gives the string back, [Value] gives the parts
    and [Empty] holds exactly for the empty string.  On an undefined
    value or a value of another type it fails and leaves the receiver as
    it was.  On a string that does not split it fails with the quoted
    string in the error, and the receiver holds the string all the
    same. *)
Theorem TransformConfig_spec (s : ShlexSlice) (raw : option Dyn) :
  let s' := (ShlexSlice_TransformConfig s raw).1 in
  let err := (ShlexSlice_TransformConfig s raw).2 in
  (∀ value, raw = Some (DString value) → (shlex_Split value).2 = None →
     err = None ∧ ShlexSlice_String s' = value ∧
     ShlexSlice_Value s' = (shlex_Split value).1 ∧
     (ShlexSlice_Empty s' = true ↔ value = "")) ∧
  (∀ value e, raw = Some (DString value) → (shlex_Split value).2 = Some e →
     err = Some ("failed to parse command " +:+ fmt_q value +:+ ": " +:+ e) ∧
     ShlexSlice_String s' = value) ∧
  ((∀ value, raw ≠ Some (DString value)) → err ≠ None ∧ s' = s).
Proof.
  unfold ShlexSlice_TransformConfig, ShlexSlice_String, ShlexSlice_Value,
    ShlexSlice_Empty.
  split_and!.
  - intros value -> Hsplit.
    destruct (shlex_Split value) as [split [e|]]; [done|]. simpl.
    split_and!; [done..|]. apply bool_decide_eq_true.
  - intros value e -> Hsplit.
    destruct (shlex_Split value) as [split [e'|]]; simplify_eq/=. done.
  - intros Hraw. destruct raw as [[value| |]|]; simpl; try done.
    by destruct (Hraw value).
Qed.

(** X23.  [jobFromConfig] hands to the transformation the values it was
    given, with one change at most: on a terminal, when the key
    [interactive] is absent, it is set to true.  A value given for
    [interactive] is never replaced, and no other key is touched. *)
Theorem jobFromConfig_interactive (name : string) (values : gmap string Dyn) :
  let values' := (jobFromConfig name values).1 in
  (jobFromConfig name values).2 = Transform_JobConfig name values' ∧
  (∀ key, key ≠ "interactive" → values' !! key = values !! key) ∧
  values' !! "interactive"
  = match values !! "interactive" with
    | Some v => Some v
    | None => if IsTerminal then Some (DBool true) else None
    end.
Proof.
  unfold jobFromConfig. simpl. split_and!; [done| |].
  - intros key Hkey.
    destruct IsTerminal, (values !! "interactive") eqn:Hv; try done.
    by rewrite lookup_insert_ne.
  - destruct IsTerminal, (values !! "interactive") eqn:Hv; try done.
    by rewrite lookup_insert_eq.
Qed.

End job_more.

(** ** The volume task *)
Section volume_more.
Import tasks volume.
Context `{OS}.

(** X24.  [Run] of a volume task whose path is a directory does nothing:
    no error, the file system and the context as they were.  Otherwise
    it makes the directory; it returns the error of that, with the
    context as it was, or marks the task modified in the context.  So
    it fails only when making the directory failed, and marks only when
    it made the directory. *)
Theorem volume_Run_cases (t : VolumeTask) (fs : FS) (ctx : ExecuteContext) :
  let r := Run t fs ctx in
  (exists_ t fs = true →
   r.2 = None ∧ r.1.1.1 = fs ∧ r.1.1.2 = ctx) ∧
  (exists_ t fs = false →
   r.1.1.1 = (os_MkdirAll fs (absPath t) 511).1 ∧
   r.2 = (os_MkdirAll fs (absPath t) 511).2 ∧
   r.1.1.2 = if (os_MkdirAll fs (absPath t) 511).2 is Some _ then ctx
             else setModified ctx (name (VolumeTask_baseTask t))) ∧
  (exists_ t fs = true ↔
   ∃ isDir, os_Stat fs (absPath t) = inl isDir ∧ isDir = true).
Proof.
  unfold Run. split_and!.
  - by intros ->.
  - intros ->. by destruct (os_MkdirAll fs (absPath t) 511) as [fs' [e|]].
  - unfold exists_. destruct (os_Stat fs (absPath t)) as [isDir|e].
    + split; [intros ->; by eexists|]. by intros (? & [= <-] & ->).
    + split; [done|]. by intros (? & ? & _).
Qed.

(** X25.  When a directory that [os.MkdirAll] made is seen as a directory
    by [os.Stat], a second [Run] after a [Run] without error changes
    nothing: neither the file system nor the context, and it returns no
    error. *)
Theorem volume_Run_twice (t : VolumeTask) (fs : FS) (ctx : ExecuteContext) :
  (∀ fs path perm,
     (os_MkdirAll fs path perm).2 = None →
     os_Stat (os_MkdirAll fs path perm).1 path = inl true) →
  (Run t fs ctx).2 = None →
  Run t (Run t fs ctx).1.1.1 (Run t fs ctx).1.1.2
  = ((Run t fs ctx).1.1.1, (Run t fs ctx).1.1.2,
     [(Debug, "run"); (Debug, "exists")], None).
Proof.
  intros Hmkdir Herr.
  destruct (Run t fs ctx) as [[[fs1 ctx1] events] err] eqn:Hrun.
  simpl in *. subst err.
  assert (exists_ t fs1 = true) as Hex1.
  { unfold Run in Hrun. destruct (exists_ t fs) eqn:Hex.
    - by simplify_eq.
    - specialize (Hmkdir fs (absPath t) 511%N).
      destruct (os_MkdirAll fs (absPath t) 511) as [fs' [e|]];
        simplify_eq/=.
      unfold exists_. by rewrite Hmkdir. }
  unfold Run. by rewrite Hex1.
Qed.

End volume_more.

(** ** The further properties on the small installation *)
Section exercised_more.
Import task context types tasks demo.

(** No request; a name without a resource part; a resource that is not
    configured. *)
Lemma collectTasks_first_name_witness :
  collectTasks 1 (options diamond []) = Returns (inl newTaskCollection) ∧
  collectTasks 1 (options diamond [":build"; "A"])
  = Returns (inr ("invalid task name " +:+ quote +:+ ":build" +:+ quote)) ∧
  collectTasks 1 (options diamond ["missing:default"; "A"])
  = Returns (inr ("resource " +:+ quote +:+ "missing" +:+ quote
                  +:+ " does not exist")).
Proof.
  split_and!.
  - exact (proj1 (collectTasks_first_name 0 (options diamond [])) eq_refl).
  - exact (proj1 (proj2 (collectTasks_first_name 0
                           (options diamond [":build"; "A"])))
             ":build" ["A"] _ eq_refl eq_refl).
  - exact (proj2 (proj2 (collectTasks_first_name 0
                           (options diamond ["missing:default"; "A"])))
             "missing:default" ["A"] (NewName "missing" "default")
             eq_refl eq_refl eq_refl).
Defined.

(** With constructors that refuse an action, the TaskConfigs of the
    diamond carry four Names. *)
Lemma collectTasks_enough_fuel_witness :
  collectTasks (H3 := strictPackages) 5 (options diamond ["A"]) ≠ OutOfFuel ∧
  collectTasks (H3 := strictPackages) (5 + 4) (options diamond ["A"])
  = collectTasks (H3 := strictPackages) 5 (options diamond ["A"]).
Proof.
  apply (collectTasks_enough_fuel (H2 := strictPackages) 5 4
           (options diamond ["A"]) diamondNames).
  - intros s T. unfold configFor. simpl.
    destruct (parse s) as [[r a]|]; [|done]. simpl.
    destruct (diamond !! r) as [resource|] eqn:Hres; [|done].
    unfold diamond in Hres. apply elem_of_list_to_map_2 in Hres.
    repeat (apply elem_of_cons in Hres as [Hres|Hres];
            [simplify_eq; simpl; unfold defaultOnly; simpl;
             case_bool_decide; [subst a|done];
             intros [= <-]; by vm_compute|]).
    by apply elem_of_nil in Hres.
  - vm_compute. lia.
Defined.

(** The collection of the diamond from a state that holds a TaskConfig
    and a Name on the stack. *)
Lemma collect_appends_and_restores_witness :
  ∃ state' res,
    collect 4 (options diamond ["A"]) midState = Returns (state', inl res) ∧
    res = cs_tasks state' ∧
    tasks (cs_tasks midState) `prefix_of` tasks (cs_tasks state') ∧
    taskStack state' = taskStack midState.
Proof.
  eexists _, _. split; [vm_compute; reflexivity|].
  eapply (collect_appends_and_restores 4 (options diamond ["A"]) midState).
  vm_compute. reflexivity.
Defined.

Lemma collectTasks_closed_witness :
  ∃ c,
    collectTasks 4 (options diamond ["A"]) = Returns (inl c) ∧
    length (All c) = 5 ∧
    (∀ T d, T ∈ All c → d ∈ TaskConfig_Dependencies T →
       ∃ T', T' ∈ All c ∧
             configFor (Config (options diamond ["A"])) (Name_Name d)
             = Some T').
Proof.
  eexists. split; [vm_compute; reflexivity|]. split; [reflexivity|].
  eapply (proj1 (proj2 (collectTasks_closed 4 (options diamond ["A"]) _ _))).
  Unshelve. vm_compute. reflexivity.
Defined.

(** [a] then [b'], which depends on [a]. *)
Lemma runs_follow_dependencies_witness :
  ∃ j T',
    j < 1 ∧
    runResults (executeTasks w0 ctx0 {| tasks := [taskA; taskB'] |}).1.2 !! j
    = Some (T', None) ∧
    TaskConfig_Name T' = nameA.
Proof.
  assert (dependency_first (All {| tasks := [taskA; taskB'] |})) as Hfirst.
  { intros i T d Hi Hd. destruct i as [|[|i]]; simpl in Hi; simplify_eq.
    - by apply elem_of_nil in Hd.
    - apply list_elem_of_singleton in Hd as ->.
      exists 0, taskA. split_and!; [lia|done..]. }
  apply (runs_follow_dependencies w0 ctx0 {| tasks := [taskA; taskB'] |}
           Hfirst 1 taskB' None nameA).
  - vm_compute. reflexivity.
  - apply list_elem_of_here.
Defined.

Lemma simple_keeps_resources name resource deps m err :
  run_keeps_resources (simpleConfig name resource deps m err).
Proof. intros r w ctx d. reflexivity. Defined.

(** The registry after [a] and [b'], at the key [a]. *)
Lemma resolved_resources_registered_witness :
  (Resources (executeTasks_range [taskA; taskB'] w0 ctx0 []).1.1.1.2 !! "a"
   = Resources ctx0 !! "a" ∧
   ∀ T, T ∈ ranOf (executeTasks_range [taskA; taskB'] w0 ctx0 []).1.2 →
        Resource (TaskConfig_Name T) ≠ "a") ∨
  (∃ T env,
     T ∈ ranOf (executeTasks_range [taskA; taskB'] w0 ctx0 []).1.2 ∧
     Resource (TaskConfig_Name T) = "a" ∧
     Resources (executeTasks_range [taskA; taskB'] w0 ctx0 []).1.1.1.2 !! "a"
     = Some (config.Resource_Resolve (TaskConfig_Resource T) env).1).
Proof.
  apply (resolved_resources_registered [taskA; taskB'] w0 ctx0 []).
  repeat constructor; apply simple_keeps_resources.
Defined.

Lemma Run_default_task_witness :
  Run 3 (options diamond []) w0
  = Returns (w0, [], Some "no task to run, and no default task defined") ∧
  Run 3 optionsDefault w0
  = Run 3 (RunOptions_with_Tasks optionsDefault ["D"]) w0.
Proof.
  split.
  - by apply (proj1 (Run_default_task 3 (options diamond []) w0)).
  - by apply (proj2 (Run_default_task 3 optionsDefault w0)).
Defined.

Lemma Run_aborts_before_execution_witness :
  Run 1 (options diamond ["missing:default"]) w0
  = Returns (w0, [],
             Some ("resource " +:+ quote +:+ "missing" +:+ quote
                   +:+ " does not exist")).
Proof.
  by apply (proj1 (proj2 (Run_aborts_before_execution 1
                            (options diamond ["missing:default"]) w0 _
                            ltac:(discriminate)))).
Defined.

(** A job whose mount is not configured. *)
Lemma JobConfig_Validate_spec_witness :
  config.JobConfig_Validate (job "img" ["src"] [] []) appPath
    (Config (options broken []))
  = Some (config.pth_Errorf (config.Path_Add appPath "mounts")
            "src is not a mount resource").
Proof.
  exact (proj1 (proj2 (proj2 (JobConfig_Validate_spec
                                (job "img" ["src"] [] []) appPath
                                (Config (options broken [])))))
           "src is not a mount resource" eq_refl eq_refl).
Defined.

(** A job whose environment needs an undefined variable. *)
Lemma JobConfig_Resolve_first_error_witness :
  (config.JobConfig_Resolve (job "img" [] [] ["HOME={HOME}"])
     strictResolver).2 = Some "undefined variable" ∧
  config.WorkingDir
    (config.JobConfig_Resolve (job "img" [] [] ["HOME={HOME}"])
       strictResolver).1 = "/src".
Proof.
  destruct (proj1 (proj2 (JobConfig_Resolve_first_error
                            (job "img" [] [] ["HOME={HOME}"])
                            strictResolver))
              "undefined variable" eq_refl) as (Herr & Hdir & _).
  by split.
Defined.

Lemma Resolve_idempotent_witness :
  config.JobConfig_Resolve (job "img" [] [] ["A=1"]) idResolver
  = (job "img" [] [] ["A=1"], None).
Proof.
  apply (proj1 (Resolve_idempotent idResolver
                  ltac:(by intros l l' [= <-])
                  ltac:(by intros s s' [= <-]))
           (job "img" [] [] ["A=1"])).
  reflexivity.
Defined.

Lemma TransformConfig_spec_witness :
  (config.ShlexSlice_TransformConfig
     {| config.original := ""; config.parsed := [] |}
     (Some (config.DString "go build"))).2 = None ∧
  config.ShlexSlice_Value
    (config.ShlexSlice_TransformConfig
       {| config.original := ""; config.parsed := [] |}
       (Some (config.DString "go build"))).1 = ["go"; "build"].
Proof.
  destruct (proj1 (TransformConfig_spec
                     {| config.original := ""; config.parsed := [] |}
                     (Some (config.DString "go build")))
              "go build" eq_refl) as (Herr & _ & Hvalue & _).
  - vm_compute. reflexivity.
  - split; [exact Herr|exact Hvalue].
Defined.

(** The directory is there; the directory is not there. *)
Lemma volume_Run_cases_witness :
  ((volume.Run distVolume withDist noneMarked).2 = None ∧
   (volume.Run distVolume withDist noneMarked).1.1.1 = withDist ∧
   (volume.Run distVolume withDist noneMarked).1.1.2 = noneMarked) ∧
  (volume.Run distVolume noDirs noneMarked).1.1.2
  = volume.setModified noneMarked "dist".
Proof.
  split.
  - by apply (proj1 (volume_Run_cases distVolume withDist noneMarked)).
  - by destruct (proj1 (proj2 (volume_Run_cases distVolume noDirs noneMarked))
                   eq_refl) as (_ & _ & ->).
Defined.

Lemma volume_Run_twice_witness :
  volume.Run distVolume
    (volume.Run distVolume noDirs noneMarked).1.1.1
    (volume.Run distVolume noDirs noneMarked).1.1.2
  = ((volume.Run distVolume noDirs noneMarked).1.1.1,
     (volume.Run distVolume noDirs noneMarked).1.1.2,
     [(Debug, "run"); (Debug, "exists")], None).
Proof.
  apply (volume_Run_twice distVolume noDirs noneMarked).
  - intros fs path perm. simpl. case_bool_decide; [done|]. simpl. intros _.
    rewrite bool_decide_eq_true_2; [done|]. set_solver.
  - reflexivity.
Defined.

End exercised_more.
